(** * Request-log policy of the azblob pipeline

    Shallow embedding of [2016-05-31/azblob/policy_request_log.go]:
    the query redactor [redactSigQueryParam], the logging copy made by
    [prepareRequestForLogging], and the policy's [Do] method, together
    with the parts of Go's [strings] and [net/url] packages they call. *)

From Stdlib Require Import ZArith NArith Ascii String List Bool Lia.
From stdpp Require Import base option list gmap strings fin_maps sorting.

Local Open Scope string_scope.

(** ** Go's [strings] package, on byte strings

    A Go string is a sequence of bytes; [string] over 8-bit [ascii] is
    exactly that. *)
Module GoStrings.

Definition byte_val (c : ascii) : N := N_of_ascii c.

Definition in_range (lo hi c : ascii) : bool :=
  (byte_val lo <=? byte_val c)%N && (byte_val c <=? byte_val hi)%N.

(** [utf8.RuneSelf = 0x80]: bytes below it are single-byte runes. *)
Definition is_ascii_byte (c : ascii) : bool := (byte_val c <? 128)%N.

Fixpoint is_ascii (s : string) : bool :=
  match s with
  | EmptyString => true
  | String c r => is_ascii_byte c && is_ascii r
  end.

(** The ASCII path of [strings.ToLower]: ['A'..'Z'] move by ['a' - 'A'].
    For a string with a byte of 0x80 or more Go maps runes through the
    Unicode tables instead; those tables are not modelled, such bytes are
    left as they are here, and general statements about [ToLower] are
    made for [is_ascii] strings. *)
Definition lower_byte (c : ascii) : ascii :=
  if in_range "A" "Z" c then ascii_of_N (byte_val c + 32) else c.

Fixpoint ToLower (s : string) : string :=
  match s with
  | EmptyString => EmptyString
  | String c r => String (lower_byte c) (ToLower r)
  end.

Fixpoint HasPrefix (s prefix : string) : bool :=
  match prefix, s with
  | EmptyString, _ => true
  | String a p, String b r => Ascii.eqb a b && HasPrefix r p
  | String _ _, EmptyString => false
  end.

Fixpoint Contains (s substr : string) : bool :=
  HasPrefix s substr ||
  match s with
  | EmptyString => false
  | String _ r => Contains r substr
  end.

(** [strings.Cut s sep] for a one-byte separator: the text before the
    first [sep] and the text after it (all of [s] and the empty string
    when there is none). *)
Fixpoint Cut (sep : ascii) (s : string) : string * string :=
  match s with
  | EmptyString => (EmptyString, EmptyString)
  | String c r =>
      if Ascii.eqb c sep then (EmptyString, r)
      else let '(before, after) := Cut sep r in (String c before, after)
  end.

(** [strings.Split s sep] for a one-byte separator. *)
Fixpoint Split (sep : ascii) (s : string) : list string :=
  match s with
  | EmptyString => [EmptyString]
  | String c r =>
      if Ascii.eqb c sep then EmptyString :: Split sep r
      else match Split sep r with
           | h :: t => String c h :: t
           | [] => [String c EmptyString]
           end
  end.

(** [strings.Join]. *)
Fixpoint Join (elems : list string) (sep : string) : string :=
  match elems with
  | [] => EmptyString
  | [e] => e
  | e :: rest => e ++ sep ++ Join rest sep
  end.

(** [strings.EqualFold name "sig"].  [EqualFold] compares rune by rune
    under Unicode simple case folding.  The folding orbit of [s] is
    {S, s, U+017F}, the orbits of [i] and [g] are {I, i} and {G, g}; the
    only valid UTF-8 form of U+017F is the byte pair C5 BF.  So a name
    folds to [sig] exactly when it is one rune of the first orbit, one of
    the second and one of the third. *)
Definition fold_s (name : string) : option string :=
  match name with
  | String c r =>
      if Ascii.eqb c "s" || Ascii.eqb c "S" then Some r
      else if Ascii.eqb c (ascii_of_N 197) then
        match r with
        | String d r' => if Ascii.eqb d (ascii_of_N 191) then Some r' else None
        | EmptyString => None
        end
      else None
  | EmptyString => None
  end.

Definition EqualFold_sig (name : string) : bool :=
  match fold_s name with
  | Some (String i (String g EmptyString)) =>
      (Ascii.eqb i "i" || Ascii.eqb i "I") && (Ascii.eqb g "g" || Ascii.eqb g "G")
  | _ => false
  end.

(** Byte-wise lexicographic order, Go's [<=] on strings. *)
Fixpoint string_leb (s t : string) : bool :=
  match s, t with
  | EmptyString, _ => true
  | String _ _, EmptyString => false
  | String a s', String b t' =>
      (byte_val a <? byte_val b)%N || (Ascii.eqb a b && string_leb s' t')
  end.

Definition string_le (s t : string) : Prop := Is_true (string_leb s t).

#[global] Instance string_le_dec s t : Decision (string_le s t) := _.

End GoStrings.

(** ** Go's [net/url]: query escaping, [ParseQuery], [Values.Encode] *)
Module GoURL.
Import GoStrings.

Inductive UrlError : Type :=
| EscapeError (s : string)
| InvalidSemicolon.

Inductive result (A : Type) : Type :=
| Ok (a : A)
| Err (e : UrlError).
Arguments Ok {A} a.
Arguments Err {A} e.

Definition result_map {A B} (f : A -> B) (r : result A) : result B :=
  match r with
  | Ok a => Ok (f a)
  | Err e => Err e
  end.

Definition ishex (c : ascii) : bool :=
  in_range "0" "9" c || in_range "a" "f" c || in_range "A" "F" c.

Definition unhex (c : ascii) : N :=
  if in_range "0" "9" c then byte_val c - 48
  else if in_range "a" "f" c then byte_val c - 97 + 10
  else if in_range "A" "F" c then byte_val c - 65 + 10
  else 0.

Definition take3 (s : string) : string :=
  match s with
  | String a (String b (String c _)) => String a (String b (String c EmptyString))
  | _ => s
  end.

(** [url.QueryUnescape]: [%XX] becomes the byte XX, [+] becomes a space;
    a [%] not followed by two hex digits is an [EscapeError] carrying at
    most three bytes from the offending [%]. *)
Fixpoint QueryUnescape (s : string) : result string :=
  match s with
  | EmptyString => Ok EmptyString
  | String c r =>
      if Ascii.eqb c "%" then
        match r with
        | String a (String b r') =>
            if ishex a && ishex b
            then result_map (String (ascii_of_N (unhex a * 16 + unhex b))) (QueryUnescape r')
            else Err (EscapeError (take3 s))
        | _ => Err (EscapeError (take3 s))
        end
      else if Ascii.eqb c "+" then result_map (String " ") (QueryUnescape r)
      else result_map (String c) (QueryUnescape r)
  end.

(** [shouldEscape c encodeQueryComponent]: everything except the
    unreserved characters of RFC 3986. *)
Definition shouldEscape (c : ascii) : bool :=
  if in_range "a" "z" c || in_range "A" "Z" c || in_range "0" "9" c then false
  else if Ascii.eqb c "-" || Ascii.eqb c "_" || Ascii.eqb c "." || Ascii.eqb c "~" then false
  else true.

Definition upperhex (n : N) : ascii :=
  if (n <? 10)%N then ascii_of_N (48 + n) else ascii_of_N (65 + (n - 10)).

Definition escape_byte (c : ascii) : string :=
  if Ascii.eqb c " " then "+"
  else if shouldEscape c then
    String "%" (String (upperhex (byte_val c / 16)) (String (upperhex (byte_val c mod 16)) EmptyString))
  else String c EmptyString.

(** [url.QueryEscape]. *)
Fixpoint QueryEscape (s : string) : string :=
  match s with
  | EmptyString => EmptyString
  | String c r => escape_byte c ++ QueryEscape r
  end.

(** [url.Values] is [map[string][]string]. *)
Abbreviation Values := (gmap string (list string)).

Definition values_get (m : Values) (key : string) : list string :=
  default [] (m !! key).

Definition first_error (err : option UrlError) (e : UrlError) : option UrlError :=
  match err with
  | Some _ => err
  | None => Some e
  end.

(** One turn of the loop of [url.parseQuery] (Go 1.17 and later), on the
    text [key] cut off before the next [&]. *)
Definition parse_component (acc : Values * option UrlError) (key : string)
  : Values * option UrlError :=
  let '(m, err) := acc in
  if Contains key ";" then (m, Some InvalidSemicolon)
  else if String.eqb key "" then (m, err)
  else
    let '(key, value) := Cut "=" key in
    match QueryUnescape key with
    | Err err1 => (m, first_error err err1)
    | Ok key =>
        match QueryUnescape value with
        | Err err1 => (m, first_error err err1)
        | Ok value => (<[key := (values_get m key ++ [value])%list]> m, err)
        end
    end.

(** [url.ParseQuery]: the loop cuts the query at each [&], so it visits
    the parts of [Split "&" query] from left to right (for the empty query
    the single empty part is skipped like any other empty part).  The map
    holds every well-formed setting; the error is the first one met. *)
Definition ParseQuery (query : string) : Values * option UrlError :=
  foldl parse_component (∅, None) (Split "&" query).

(** [Values.Encode]: keys sorted, each value written as [key=value] with
    both sides escaped, [&] written before every setting but the first. *)
Definition encode_key (v : Values) (k : string) : list string :=
  map (fun x => QueryEscape k ++ "=" ++ QueryEscape x) (values_get v k).

Definition sorted_keys (v : Values) : list string :=
  merge_sort string_le (map fst (map_to_list v)).

Definition Encode (v : Values) : string :=
  Join (flat_map (encode_key v) (sorted_keys v)) "&".

End GoURL.

(** ** Go's [net/http] header, as far as [Request.Copy] uses it *)
Module GoHeader.
Import GoStrings.

Fixpoint byte_in (c : ascii) (s : string) : bool :=
  match s with
  | EmptyString => false
  | String d r => Ascii.eqb d c || byte_in c r
  end.

(** The bytes of an RFC 7230 token. *)
Definition validHeaderFieldByte (c : ascii) : bool :=
  in_range "a" "z" c || in_range "A" "Z" c || in_range "0" "9" c
  || byte_in c "!#$%&'*+-.^_`|~".

Fixpoint valid_key (s : string) : bool :=
  match s with
  | EmptyString => true
  | String c r => validHeaderFieldByte c && valid_key r
  end.

(** The loop of [canonicalMIMEHeaderKey]: a letter at the start or after
    a [-] is made a capital, any other letter is made small. *)
Fixpoint canonical_bytes (upper : bool) (s : string) : string :=
  match s with
  | EmptyString => EmptyString
  | String c r =>
      let c := if upper && in_range "a" "z" c then ascii_of_N (byte_val c - 32)
               else if negb upper && in_range "A" "Z" c then ascii_of_N (byte_val c + 32)
               else c in
      String c (canonical_bytes (Ascii.eqb c "-") r)
  end.

(** [textproto.CanonicalMIMEHeaderKey]: a key with a byte that is not a
    token byte is returned as it is. *)
Definition CanonicalMIMEHeaderKey (s : string) : string :=
  if valid_key s then canonical_bytes true s else s.

(** [http.Header] is [map[string][]string]; its entries are kept here as
    a list.  Go ranges over a map in no fixed order: the list order
    stands for one such order, which matters only to the order of the
    values of keys that have the same canonical form. *)
Definition Header : Type := list (string * list string).

(** [h[key] = append(h[key], value)]. *)
Fixpoint header_append (h : Header) (key value : string) : Header :=
  match h with
  | [] => [(key, [value])]
  | (k, vs) :: rest =>
      if String.eqb k key then (k, (vs ++ [value])%list) :: rest
      else (k, vs) :: header_append rest key value
  end.

(** [Header.Add]. *)
Definition Header_Add (h : Header) (key value : string) : Header :=
  header_append h (CanonicalMIMEHeaderKey key) value.

(** The loops of [Request.Copy] that fill the new header. *)
Definition copy_header (h : Header) : Header :=
  foldl (fun acc kvs => foldl (fun acc value => Header_Add acc (fst kvs) value) acc (snd kvs))
        [] h.

End GoHeader.

(** ** The query redactor *)
Import GoStrings GoURL.

Definition REDACTED : string := "REDACTED".

(** The loop [for name := range values] of [redactSigQueryParam]: it
    assigns to keys that are already present, so every key is visited
    once, in some order. *)
Definition redact_values (values : Values) : Values :=
  foldr (fun name vs => if EqualFold_sig name then <[name := [REDACTED]]> vs else vs)
        values (map fst (map_to_list values)).

Definition redact_found (sigFound : bool) (rawQuery : string) : bool * string :=
  let '(values, _) := ParseQuery rawQuery in
  (sigFound, Encode (redact_values values)).

Definition redactSigQueryParam (rawQuery : string) : bool * string :=
  let rawQuery := ToLower rawQuery in
  let sigFound := Contains rawQuery "?sig=" in
  if negb sigFound then
    let sigFound := Contains rawQuery "&sig=" in
    if negb sigFound then (sigFound, rawQuery)
    else redact_found sigFound rawQuery
  else redact_found sigFound rawQuery.


(** ** The pipeline package, as far as the policy uses it *)
Module Pipeline.

(** [pipeline.LogLevel]. *)
Inductive LogLevel : Type :=
| LogNone | LogFatal | LogPanic | LogError | LogWarning | LogInfo | LogDebug.

#[global] Instance LogLevel_eq_dec : EqDecision LogLevel.
Proof. solve_decision. Defined.

(** [time.Time] as nanoseconds on some clock, [time.Duration] as the
    64-bit count of nanoseconds it is. *)
Definition Time : Type := Z.
Definition Duration : Type := Z.

Definition maxDuration : Duration := (2 ^ 63 - 1)%Z.
Definition minDuration : Duration := (- 2 ^ 63)%Z.
Definition Second : Duration := 1000000000%Z.

(** [t.Sub(u)]: the difference, held at the largest or smallest
    [Duration] when it does not fit. *)
Definition Sub (t u : Time) : Duration :=
  let d := (t - u)%Z in
  if (maxDuration <? d)%Z then maxDuration
  else if (d <? minDuration)%Z then minDuration
  else d.

(** [url.URL] and [http.Request]: the request holds a pointer to its
    URL; the header is only read by the code below. *)
Record URL : Type := mkURL {
  Scheme : string;
  Host : string;
  Path : string;
  RawQuery : string
}.

Record HttpRequest : Type := mkHttpRequest {
  Method : string;
  URLptr : nat;
  Header : list (string * list string)
}.

(** The part of [http.Response] the policy reads. *)
Record Response : Type := mkResponse {
  StatusCode : Z;
  Status : string
}.

(** A Go [error] value, by its text. *)
Definition Error : Type := string.

(** The store of request and URL objects.  A pointer is an index; the
    objects below [n_requests] and [n_urls] are the allocated ones. *)
Record Heap : Type := mkHeap {
  requests : nat -> HttpRequest;
  n_requests : nat;
  urls : nat -> URL;
  n_urls : nat
}.

(** [pipeline.Request] wraps a [*http.Request]. *)
Definition Request : Type := nat.

(** What [pipeline.WriteRequest] reads of a request when it prints it. *)
Record RequestDump : Type := mkRequestDump {
  dump_method : string;
  dump_url : URL;
  dump_header : list (string * list string)
}.

Definition dump_request (h : Heap) (req : nat) : RequestDump :=
  let r := requests h req in
  mkRequestDump (Method r) (urls h (URLptr r)) (Header r).

(** The text written to a [bytes.Buffer], piece by piece. *)
Inductive Part : Type :=
| OutgoingRequestLine (try : Z)
| RequestResponseLine (try : Z) (tryDuration opDuration : Duration)
| SuccessfulOperationLine
| SlowOperationLine (threshold : Duration)
| OperationErrorLine
| NetworkErrorLine (err : option Error)
| WrittenRequest (r : RequestDump)
| WrittenResponse (r : Response)
| StackBytes (s : string).

Definition Buffer : Type := list Part.

(** What the policy does to its surroundings, in order. *)
Inductive Event : Type :=
| EvShouldLog (level : LogLevel)
| EvLog (level : LogLevel) (msg : Buffer)
| EvForceLog (level : LogLevel) (msg : Buffer)
| EvWriteRequest (req : nat)
| EvWriteRequestWithResponse (req : nat)
| EvStack
| EvNodeDo (request : Request).

(** The next stage answers with Go's pair [(response, err)], either of
    which may be nil, and may have changed the store. *)
Record Answer : Type := mkAnswer {
  ans_response : option Response;
  ans_err : option Error;
  ans_heap : Heap
}.

(** [pipeline.Node]: the configured log filter and the next stage. *)
Record Node : Type := mkNode {
  node_ShouldLog : LogLevel -> bool;
  node_Do : Request -> Heap -> Answer
}.

Record World : Type := mkWorld {
  heap : Heap;
  clock : nat -> Time;
  ticks : nat;
  goroutine_stack : string;
  trace : list Event
}.

(** A call either returns or panics. *)
Inductive Outcome (A : Type) : Type :=
| Returns (a : A) (w : World)
| Panics (w : World).
Arguments Returns {A} a w.
Arguments Panics {A} w.

Definition M (A : Type) : Type := World -> Outcome A.

Definition ret {A} (a : A) : M A := fun w => Returns a w.

Definition bind {A B} (m : M A) (f : A -> M B) : M B :=
  fun w => match m w with
           | Returns a w' => f a w'
           | Panics w' => Panics w'
           end.

Definition panic {A} : M A := fun w => Panics w.

Definition emit (e : Event) : M unit :=
  fun w => Returns tt (mkWorld (heap w) (clock w) (ticks w) (goroutine_stack w) (trace w ++ [e])).

Definition get_heap : M Heap := fun w => Returns (heap w) w.

Definition put_heap (h : Heap) : M unit :=
  fun w => Returns tt (mkWorld h (clock w) (ticks w) (goroutine_stack w) (trace w)).

(** [time.Now()]: the next reading of the clock. *)
Definition Now : M Time :=
  fun w => Returns (clock w (ticks w))
                   (mkWorld (heap w) (clock w) (S (ticks w)) (goroutine_stack w) (trace w)).

Definition outcome_world {A} (o : Outcome A) : World :=
  match o with
  | Returns _ w => w
  | Panics w => w
  end.

End Pipeline.

Import Pipeline.

Notation "'let*' x := m 'in' k" := (bind m (fun x => k))
  (at level 10, x name, m at level 100, k at level 200).
Notation "'let*' ' pat := m 'in' k" := (bind m (fun x => match x with pat => k end))
  (at level 10, pat pattern, m at level 100, k at level 200).
Notation "'do*' m 'in' k" := (bind m (fun _ => k))
  (at level 10, m at level 100, k at level 200).

(** [p.node.ShouldLog], [p.node.Log], [pipeline.ForceLog], [p.node.Do]. *)
Definition ShouldLog (n : Node) (level : LogLevel) : M bool :=
  do* emit (EvShouldLog level) in ret (node_ShouldLog n level).

Definition Log (level : LogLevel) (msg : Buffer) : M unit := emit (EvLog level msg).

Definition ForceLog (level : LogLevel) (msg : Buffer) : M unit := emit (EvForceLog level msg).

Definition NodeDo (n : Node) (request : Request) : M (option Response * option Error) :=
  do* emit (EvNodeDo request) in
  let* h := get_heap in
  let a := node_Do n request h in
  do* put_heap (ans_heap a) in
  ret (ans_response a, ans_err a).

(** [pipeline.Request.Copy]: a new [http.Request] with the same fields,
    pointing to a new copy of the URL and holding a header rebuilt with
    [Header.Add].  The fields [TransferEncoding], [Form], [PostForm],
    [MultipartForm] and [Trailer] of [http.Request] are not modelled:
    they are nil in the requests that the pipeline builds. *)
Definition Copy (request : Request) : M Request :=
  let* h := get_heap in
  let r := requests h request in
  let u := n_urls h in
  let c := n_requests h in
  do* put_heap (mkHeap (fun i => if Nat.eqb i c
                                 then mkHttpRequest (Method r) u (GoHeader.copy_header (Header r))
                                 else requests h i)
                       (S c)
                       (fun i => if Nat.eqb i u then urls h (URLptr r) else urls h i)
                       (S u)) in
  ret c.

(** [req.Request.URL.RawQuery = rawQuery]. *)
Definition set_RawQuery (req : nat) (rawQuery : string) : M unit :=
  let* h := get_heap in
  let u := URLptr (requests h req) in
  let old := urls h u in
  put_heap (mkHeap (requests h) (n_requests h)
                   (fun i => if Nat.eqb i u
                             then mkURL (Scheme old) (Host old) (Path old) rawQuery
                             else urls h i)
                   (n_urls h)).

Definition WriteRequest (b : Buffer) (req : nat) : M Buffer :=
  do* emit (EvWriteRequest req) in
  let* h := get_heap in
  ret (b ++ [WrittenRequest (dump_request h req)])%list.

Definition WriteRequestWithResponse (b : Buffer) (req : nat) (resp : Response) : M Buffer :=
  do* emit (EvWriteRequestWithResponse req) in
  let* h := get_heap in
  ret (b ++ [WrittenRequest (dump_request h req); WrittenResponse resp])%list.

(** ** The policy *)

Record RequestLogOptions : Type := mkRequestLogOptions {
  LogWarningIfTryOverThreshold : Duration
}.

Record requestLogPolicyFactory : Type := mkFactory {
  factory_o : RequestLogOptions
}.

Definition NewRequestLogPolicyFactory (o : RequestLogOptions) : requestLogPolicyFactory :=
  let o := if (LogWarningIfTryOverThreshold o =? 0)%Z
           then mkRequestLogOptions (3 * Second)%Z
           else o in
  mkFactory o.

Record requestLogPolicy : Type := mkPolicy {
  node : Node;
  o : RequestLogOptions;
  try : Z;
  operationStart : Time
}.

(** The zero [time.Time] of a policy that has not run yet. *)
Definition zeroTime : Time := 0%Z.

Definition New (f : requestLogPolicyFactory) (n : Node) : requestLogPolicy :=
  mkPolicy n (factory_o f) 0%Z zeroTime.

Definition prepareRequestForLogging (request : Request) : M nat :=
  let req := request in
  let* h := get_heap in
  let '(sigFound, rawQuery) :=
    redactSigQueryParam (RawQuery (urls h (URLptr (requests h req)))) in
  if sigFound then
    let* req := Copy request in
    do* set_RawQuery req rawQuery in
    ret req
  else ret req.

(** [runtime.Stack(buf, false)] fills [buf] with as much of the stack
    text as fits and says how many bytes that was; [stack] doubles the
    buffer until the text is shorter than it. *)
Fixpoint stack_loop (fuel : nat) (size : nat) (text : string) : string :=
  let n := Nat.min (String.length text) size in
  match fuel with
  | O => String.substring 0 n text
  | S fuel' =>
      if Nat.ltb n size then String.substring 0 n text
      else stack_loop fuel' (2 * size) text
  end.

Definition stack : M string :=
  do* emit EvStack in
  fun w => Returns (stack_loop (String.length (goroutine_stack w)) 1024 (goroutine_stack w)) w.

(** [response.Response()]: a nil [response] panics. *)
Definition response_Response (response : option Response) : M Response :=
  match response with
  | Some r => ret r
  | None => panic
  end.

(** The four closures that [Do] can hold in [logMsg]. *)
Inductive LogMsg : Type :=
| MsgSuccessful
| MsgSlow
| MsgOperationError
| MsgNetworkError.

(** Calling [logMsg(b)].  The closures share the variable [forceLog] of
    [Do]; three of them assign to it, and they do so when they run. *)
Definition run_logMsg (logMsg : LogMsg) (p : requestLogPolicy) (request : Request)
    (response : option Response) (err : option Error)
    (b : Buffer) (forceLog : bool) : M (Buffer * bool) :=
  match logMsg with
  | MsgSuccessful =>
      let b := (b ++ [SuccessfulOperationLine])%list in
      let* req := prepareRequestForLogging request in
      let* resp := response_Response response in
      let* b := WriteRequestWithResponse b req resp in
      ret (b, forceLog)
  | MsgSlow =>
      let b := (b ++ [SlowOperationLine (LogWarningIfTryOverThreshold (o p))])%list in
      let* req := prepareRequestForLogging request in
      let* resp := response_Response response in
      let* b := WriteRequestWithResponse b req resp in
      let forceLog := true in
      ret (b, forceLog)
  | MsgOperationError =>
      let b := (b ++ [OperationErrorLine])%list in
      let* req := prepareRequestForLogging request in
      let* resp := response_Response response in
      let* b := WriteRequestWithResponse b req resp in
      let* s := stack in
      let b := (b ++ [StackBytes s])%list in
      let forceLog := true in
      ret (b, forceLog)
  | MsgNetworkError =>
      let b := (b ++ [NetworkErrorLine err])%list in
      let* req := prepareRequestForLogging request in
      let* b := WriteRequest b req in
      let* s := stack in
      let b := (b ++ [StackBytes s])%list in
      let forceLog := true in
      ret (b, forceLog)
  end.

(** [p.try] is an [int32]. *)
Definition wrap_int32 (x : Z) : Z := ((x + 2 ^ 31) mod 2 ^ 32 - 2 ^ 31)%Z.

(** Lines 78 to 81 of [Do]: count the try, and on try 1 read the clock. *)
Definition begin_try (p : requestLogPolicy) (w : World) : requestLogPolicy * World :=
  let p := mkPolicy (node p) (o p) (wrap_int32 (try p + 1)) (operationStart p) in
  if (try p =? 1)%Z then
    match Now w with
    | Returns t w' => (mkPolicy (node p) (o p) (try p) t, w')
    | Panics w' => (p, w')
    end
  else (p, w).

(** Lines 98 to 139 of [Do]: the severity, the closure and the value of
    [forceLog] with which the try reaches the test of line 141. *)
Definition classify_try (p : requestLogPolicy) (tryDuration : Duration)
    (response : option Response) (err : option Error) : M (LogLevel * LogMsg * bool) :=
  let severity := LogInfo in
  let logMsg := MsgSuccessful in
  let forceLog := false in
  let '(severity, logMsg) :=
    if (0 <? LogWarningIfTryOverThreshold (o p))%Z
       && (LogWarningIfTryOverThreshold (o p) <? tryDuration)%Z
    then (LogWarning, MsgSlow)
    else (severity, logMsg) in
  match err with
  | None =>
      let* r := response_Response response in
      let sc := StatusCode r in
      if ((400 <=? sc)%Z && (sc <=? 499)%Z
          && negb (sc =? 404)%Z && negb (sc =? 409)%Z
          && negb (sc =? 412)%Z && negb (sc =? 416)%Z)
         || ((500 <=? sc)%Z && (sc <=? 599)%Z)
      then ret (LogError, MsgOperationError, forceLog)
      else ret (severity, logMsg, forceLog)
  | Some _ => ret (LogError, MsgNetworkError, forceLog)
  end.

(** Lines 84 to 89. *)
Definition log_outgoing (p : requestLogPolicy) (request : Request) : M unit :=
  let* shouldLog := ShouldLog (node p) LogInfo in
  if shouldLog then
    let b := [OutgoingRequestLine (try p)] in
    let* req := prepareRequestForLogging request in
    let* b := WriteRequest b req in
    Log LogInfo b
  else ret tt.

(** Lines 141 to 154. *)
Definition log_outcome (p : requestLogPolicy) (request : Request)
    (response : option Response) (err : option Error)
    (tryDuration opDuration : Duration)
    (severity : LogLevel) (logMsg : LogMsg) (forceLog : bool) : M unit :=
  let* shouldLog := ShouldLog (node p) severity in
  if forceLog || shouldLog then
    let b := [RequestResponseLine (try p) tryDuration opDuration] in
    let* '(b, forceLog) := run_logMsg logMsg p request response err b forceLog in
    let msg := b in
    do* (if forceLog : bool then ForceLog severity msg else ret tt) in
    if shouldLog then Log severity msg else ret tt
  else ret tt.

(** Lines 84 to 155. *)
Definition try_request (p : requestLogPolicy) (request : Request)
  : M (option Response * option Error) :=
  do* log_outgoing p request in
  let* tryStart := Now in
  let* '(response, err) := NodeDo (node p) request in
  let* tryEnd := Now in
  let tryDuration := Sub tryEnd tryStart in
  let opDuration := Sub tryEnd (operationStart p) in
  let* '(severity, logMsg, forceLog) := classify_try p tryDuration response err in
  do* log_outcome p request response err tryDuration opDuration severity logMsg forceLog in
  ret (response, err).

(** [requestLogPolicy.Do]: the policy after the call (the receiver is a
    pointer) and what the call did. *)
Definition Do (p : requestLogPolicy) (request : Request) (w : World)
  : requestLogPolicy * Outcome (option Response * option Error) :=
  let '(p, w) := begin_try p w in
  (p, try_request p request w).

(** A store with one request, and a world around it, to run [Do] in. *)
Definition heap1 (rawQuery : string) : Heap :=
  mkHeap (fun _ => mkHttpRequest "GET" 0 [("x-ms-version", ["2016-05-31"])]) 1
         (fun _ => mkURL "https" "account.blob.core.windows.net" "/container" rawQuery) 1.

Definition world1 (rawQuery : string) (clock : nat -> Time) : World :=
  mkWorld (heap1 rawQuery) clock 0 "goroutine 1 [running]:" [].

Definition stage (response : option Response) (err : option Error) : Request -> Heap -> Answer :=
  fun _ h => mkAnswer response err h.

Definition trace_of {A} (r : requestLogPolicy * Outcome A) : list Event :=
  trace (outcome_world (snd r)).


(** ** Notions used to state the properties *)
Module UrlDefs.

(** Occurrence of a byte in a string. *)
Fixpoint has_byte (c : ascii) (s : string) : bool :=
  match s with
  | EmptyString => false
  | String d r => Ascii.eqb d c || has_byte c r
  end.

Definition separator (c : ascii) : bool :=
  Ascii.eqb c "&" || Ascii.eqb c "=" || Ascii.eqb c ";".

(** A setting is a name with one value; [Encode] writes settings and
    [ParseQuery] reads them back one at a time. *)
Definition add_setting (m : Values) (kv : string * string) : Values :=
  <[kv.1 := (values_get m kv.1 ++ [kv.2])%list]> m.

Definition encode_setting (kv : string * string) : string :=
  QueryEscape kv.1 ++ String "=" (QueryEscape kv.2).

Fixpoint values_for (k : string) (settings : list (string * string)) : list string :=
  match settings with
  | [] => []
  | (k', v) :: rest => if decide (k' = k) then v :: values_for k rest else values_for k rest
  end.

Definition settings_of (v : Values) (keys : list string) : list (string * string) :=
  flat_map (fun k => map (pair k) (values_get v k)) keys.

Definition nonempty_values (v : Values) : Prop :=
  forall k vs, v !! k = Some vs -> vs <> [].

(** The settings of a query in the order they are written, the
    malformed ones left out as [parseQuery] leaves them out. *)
Definition setting_of (component : string) : option (string * string) :=
  if Contains component ";" then None
  else if String.eqb component "" then None
  else
    let '(key, value) := Cut "=" component in
    match QueryUnescape key, QueryUnescape value with
    | Ok key, Ok value => Some (key, value)
    | _, _ => None
    end.

Definition query_settings (query : string) : list (string * string) :=
  omap setting_of (Split "&" query).

(** Whether a query has a parameter whose name is [sig] in any case. *)
Definition has_sig_parameter (rawQuery : string) : bool :=
  existsb EqualFold_sig (map fst (query_settings rawQuery)).


End UrlDefs.

Module PolicyDefs.
Local Open Scope list_scope.

(** [h'] has every object of [h], unchanged, and maybe more. *)
Definition heap_extends (h h' : Heap) : Prop :=
  n_requests h <= n_requests h' /\
  n_urls h <= n_urls h' /\
  (forall i, i < n_requests h -> requests h' i = requests h i) /\
  (forall i, i < n_urls h -> urls h' i = urls h i).

(** The world after a step that only touched the store and the trace. *)
Definition after (w : World) (h : Heap) (events : list Event) : World :=
  mkWorld h (clock w) (ticks w) (goroutine_stack w) (trace w ++ events).

(** The events of lines 84 to 89. *)
Inductive outgoing_events : bool -> list Event -> Prop :=
| outgoing_rejected : outgoing_events false [EvShouldLog LogInfo]
| outgoing_logged req msg :
    outgoing_events true [EvShouldLog LogInfo; EvWriteRequest req; EvLog LogInfo msg].

(** The events of lines 141 to 154, by what the filter said of the
    severity and by the closure held in [logMsg]. *)
Inductive outcome_events (severity : LogLevel) : bool -> LogMsg -> list Event -> Prop :=
| outcome_rejected logMsg :
    outcome_events severity false logMsg [EvShouldLog severity]
| outcome_successful req msg :
    outcome_events severity true MsgSuccessful
      [EvShouldLog severity; EvWriteRequestWithResponse req; EvLog severity msg]
| outcome_slow req msg :
    outcome_events severity true MsgSlow
      [EvShouldLog severity; EvWriteRequestWithResponse req;
       EvForceLog severity msg; EvLog severity msg]
| outcome_operation_error req msg s :
    In (StackBytes s) msg ->
    outcome_events severity true MsgOperationError
      [EvShouldLog severity; EvWriteRequestWithResponse req; EvStack;
       EvForceLog severity msg; EvLog severity msg]
| outcome_network_error req msg s :
    In (StackBytes s) msg ->
    outcome_events severity true MsgNetworkError
      [EvShouldLog severity; EvWriteRequest req; EvStack;
       EvForceLog severity msg; EvLog severity msg].

(** The status codes that line 118 promotes to an error. *)
Definition error_status (sc : Z) : bool :=
  ((400 <=? sc)%Z && (sc <=? 499)%Z
   && negb (sc =? 404)%Z && negb (sc =? 409)%Z
   && negb (sc =? 412)%Z && negb (sc =? 416)%Z)
  || ((500 <=? sc)%Z && (sc <=? 599)%Z).

Definition over_threshold (p : requestLogPolicy) (tryDuration : Duration) : bool :=
  (0 <? LogWarningIfTryOverThreshold (o p))%Z
  && (LogWarningIfTryOverThreshold (o p) <? tryDuration)%Z.

(** [calls k p]: [p] is a policy made by [New] on which [Do] has been
    called [k] times, with any requests, in any worlds. *)
Inductive calls : Z -> requestLogPolicy -> Prop :=
| calls_New f n : calls 0%Z (New f n)
| calls_Do k p request w : calls k p -> calls (k + 1)%Z (fst (Do p request w)).

(** A node that rejects every level and whose next stage fails. *)
Definition quiet_node : Node :=
  mkNode (fun _ => false) (stage None (Some "connection reset")).

Definition default_factory : requestLogPolicyFactory :=
  NewRequestLogPolicyFactory (mkRequestLogOptions 0%Z).

Definition ticking_world : World := world1 "comp=list" (fun n => Z.of_nat n).

(** The policy after [k] calls that all read the clock at 0. *)
Definition called (k : Z) : requestLogPolicy :=
  mkPolicy quiet_node (factory_o default_factory) k 0%Z.

(** The decision order in words: the severity and the force flag of a
    try, from whether it failed in transport, its status code, its
    duration and the threshold. *)
Definition stated_classification (transport_error : bool) (status : Z)
    (tryDuration threshold : Duration) : LogLevel * bool :=
  if transport_error then (LogError, true)
  else if (500 <=? status)%Z && (status <=? 599)%Z then (LogError, true)
  else if (400 <=? status)%Z && (status <=? 499)%Z
          && negb (status =? 404)%Z && negb (status =? 409)%Z
          && negb (status =? 412)%Z && negb (status =? 416)%Z then (LogError, true)
  else if (0 <? threshold)%Z && (threshold <? tryDuration)%Z then (LogWarning, true)
  else (LogInfo, false).

Definition event_level (e : Event) : option LogLevel :=
  match e with
  | EvShouldLog level | EvLog level _ | EvForceLog level _ => Some level
  | _ => None
  end.

Definition accepting_node : Node :=
  mkNode (fun _ => true) (stage (Some (mkResponse 200%Z "200 OK")) None).

Definition is_emission (e : Event) : bool :=
  match e with
  | EvLog _ _ | EvForceLog _ _ => true
  | _ => false
  end.

Definition is_rendering (e : Event) : bool :=
  match e with
  | EvWriteRequest _ | EvWriteRequestWithResponse _ | EvStack => true
  | _ => false
  end.

Definition failing_node : Node :=
  mkNode (fun _ => true) (stage None (Some "connection reset")).

End PolicyDefs.

(** ** Notions used for the records that [Do] writes *)
Module RecordDefs.
Import PolicyDefs.
Local Open Scope list_scope.

(** The query of the request as the caller holds it. *)
Definition live_query (h : Heap) (request : Request) : string :=
  RawQuery (urls h (URLptr (requests h request))).

(** The query that a log record shows for a request whose query is [q]. *)
Definition logged_query (q : string) : string :=
  if fst (redactSigQueryParam q) then snd (redactSigQueryParam q) else q.

(** The request as a log record shows it: the copy, with the redacted
    query and the rebuilt header, when the signature is found, and the
    request itself otherwise. *)
Definition logged_dump (h : Heap) (request : Request) : RequestDump :=
  let r := requests h request in
  let u := urls h (URLptr r) in
  mkRequestDump (Method r)
                (mkURL (Scheme u) (Host u) (Path u) (logged_query (RawQuery u)))
                (if fst (redactSigQueryParam (RawQuery u))
                 then GoHeader.copy_header (Header r) else Header r).

(** [d] shows the request with its method, scheme, host and path, and
    with the query that a log record shows for it. *)
Definition shows (d : RequestDump) (h : Heap) (request : Request) : Prop :=
  dump_method d = Method (requests h request) /\
  Scheme (dump_url d) = Scheme (urls h (URLptr (requests h request))) /\
  Host (dump_url d) = Host (urls h (URLptr (requests h request))) /\
  Path (dump_url d) = Path (urls h (URLptr (requests h request))) /\
  RawQuery (dump_url d) = logged_query (live_query h request).

(** The clock tick at which a call of [Do] on [p] reads the start of
    the try: the first try reads the clock once before. *)
Definition try_start_tick (p : requestLogPolicy) (w : World) : nat :=
  if (wrap_int32 (try p + 1) =? 1)%Z then S (ticks w) else ticks w.

Definition try_duration (p : requestLogPolicy) (w : World) : Duration :=
  Sub (clock w (S (try_start_tick p w))) (clock w (try_start_tick p w)).

Definition op_duration (p : requestLogPolicy) (w : World) : Duration :=
  Sub (clock w (S (try_start_tick p w))) (operationStart (fst (begin_try p w))).

Definition response_part (response : option Response) : Buffer :=
  match response with
  | Some r => [WrittenResponse r]
  | None => []
  end.

(** The text of an outcome record, from the case of the try, the
    request as the log shows it and the stack text. *)
Definition outcome_message (p : requestLogPolicy) (tryDuration opDuration : Duration)
    (logMsg : LogMsg) (response : option Response) (err : option Error)
    (d : RequestDump) (stack_text : string) : Buffer :=
  RequestResponseLine (try p) tryDuration opDuration ::
  match logMsg with
  | MsgSuccessful =>
      SuccessfulOperationLine :: WrittenRequest d :: response_part response
  | MsgSlow =>
      SlowOperationLine (LogWarningIfTryOverThreshold (o p))
        :: WrittenRequest d :: response_part response
  | MsgOperationError =>
      OperationErrorLine :: WrittenRequest d :: response_part response
        ++ [StackBytes stack_text]
  | MsgNetworkError =>
      [NetworkErrorLine err; WrittenRequest d; StackBytes stack_text]
  end.

(** The severity and the closure that lines 98 to 139 choose, when
    they do not panic. *)
Definition classification (p : requestLogPolicy) (tryDuration : Duration)
    (response : option Response) (err : option Error) : option (LogLevel * LogMsg) :=
  match err, response with
  | Some _, _ => Some (LogError, MsgNetworkError)
  | None, Some r =>
      Some (if error_status (StatusCode r) then (LogError, MsgOperationError)
            else if over_threshold p tryDuration then (LogWarning, MsgSlow)
            else (LogInfo, MsgSuccessful))
  | None, None => None
  end.

(** The calls that write an outcome record which the filter accepted. *)
Definition outcome_calls (severity : LogLevel) (logMsg : LogMsg) (req : nat)
    (msg : Buffer) : list Event :=
  EvShouldLog severity ::
  match logMsg with
  | MsgSuccessful => [EvWriteRequestWithResponse req; EvLog severity msg]
  | MsgSlow =>
      [EvWriteRequestWithResponse req; EvForceLog severity msg; EvLog severity msg]
  | MsgOperationError =>
      [EvWriteRequestWithResponse req; EvStack; EvForceLog severity msg; EvLog severity msg]
  | MsgNetworkError =>
      [EvWriteRequest req; EvStack; EvForceLog severity msg; EvLog severity msg]
  end.

End RecordDefs.

(** * Properties *)

(** ** Escaping and parsing *)
Module UrlFacts.
Import UrlDefs.

Lemma has_byte_app c s t : has_byte c (s ++ t) = has_byte c s || has_byte c t.
Proof.
  induction s as [|d s IH]; simpl; [reflexivity|].
  rewrite IH. apply orb_assoc.
Qed.

Ltac each_byte c :=
  destruct c as [[] [] [] [] [] [] [] []].

Lemma escape_byte_unescape c r :
  QueryUnescape (escape_byte c ++ r) = result_map (String c) (QueryUnescape r).
Proof. each_byte c; reflexivity. Qed.

Lemma QueryUnescape_QueryEscape s : QueryUnescape (QueryEscape s) = Ok s.
Proof.
  induction s as [|c s IH]; simpl; [reflexivity|].
  rewrite escape_byte_unescape, IH. reflexivity.
Qed.

Lemma escape_byte_no_separator c d :
  separator d = true -> has_byte d (escape_byte c) = false.
Proof.
  unfold separator. intros H.
  assert (d = "&"%char \/ d = "="%char \/ d = ";"%char) as [-> | [-> | ->]].
  { destruct (Ascii.eqb_spec d "&"); [auto|].
    destruct (Ascii.eqb_spec d "="); [auto|].
    destruct (Ascii.eqb_spec d ";"); [auto|]. discriminate. }
  all: each_byte c; reflexivity.
Qed.

Lemma QueryEscape_no_separator s d :
  separator d = true -> has_byte d (QueryEscape s) = false.
Proof.
  intros H. induction s as [|c s IH]; simpl; [reflexivity|].
  rewrite has_byte_app, IH, (escape_byte_no_separator c d H). reflexivity.
Qed.

Lemma Cut_app sep a b :
  has_byte sep a = false -> Cut sep (a ++ String sep b) = (a, b).
Proof.
  induction a as [|c a IH]; simpl; intros H.
  - rewrite Ascii.eqb_refl. reflexivity.
  - apply orb_false_iff in H as [Hc Ha].
    rewrite Hc, (IH Ha). reflexivity.
Qed.

Lemma Split_clean sep a : has_byte sep a = false -> Split sep a = [a].
Proof.
  induction a as [|c a IH]; simpl; intros H; [reflexivity|].
  apply orb_false_iff in H as [Hc Ha].
  rewrite Hc, (IH Ha). reflexivity.
Qed.

Lemma Split_app sep a b :
  has_byte sep a = false -> Split sep (a ++ String sep b) = a :: Split sep b.
Proof.
  induction a as [|c a IH]; simpl; intros H.
  - rewrite Ascii.eqb_refl. reflexivity.
  - apply orb_false_iff in H as [Hc Ha].
    rewrite Hc, (IH Ha). reflexivity.
Qed.

Lemma HasPrefix_empty s : HasPrefix s EmptyString = true.
Proof. destruct s; reflexivity. Qed.

Lemma Contains_byte c s : Contains s (String c EmptyString) = has_byte c s.
Proof.
  induction s as [|d s IH]; simpl; [reflexivity|].
  rewrite IH, HasPrefix_empty, andb_true_r, (Ascii.eqb_sym c d). reflexivity.
Qed.

Lemma Split_Join sep (comps : list string) :
  comps <> [] ->
  Forall (fun c => has_byte sep c = false) comps ->
  Split sep (Join comps (String sep EmptyString)) = comps.
Proof.
  induction comps as [|c comps IH]; intros Hne Hall; [congruence|].
  inversion Hall as [|? ? Hc Hrest]; subst.
  destruct comps as [|c' comps'].
  - simpl. apply Split_clean, Hc.
  - change (Join (c :: c' :: comps') (String sep EmptyString))
      with (c ++ String sep (Join (c' :: comps') (String sep EmptyString))).
    rewrite Split_app by exact Hc.
    rewrite IH; [reflexivity|discriminate|exact Hrest].
Qed.

Lemma append_not_empty a c b : String.eqb (a ++ String c b) "" = false.
Proof. destruct a; reflexivity. Qed.

Lemma encode_setting_clean kv : has_byte "&" (encode_setting kv) = false.
Proof.
  destruct kv as [k v]. unfold encode_setting; cbn [fst snd].
  rewrite has_byte_app; cbn [has_byte].
  rewrite !QueryEscape_no_separator by reflexivity. reflexivity.
Qed.

Lemma parse_component_setting m err kv :
  parse_component (m, err) (encode_setting kv) = (add_setting m kv, err).
Proof.
  destruct kv as [k v]. unfold parse_component, encode_setting, add_setting; cbn [fst snd].
  rewrite Contains_byte, has_byte_app; cbn [has_byte].
  rewrite !QueryEscape_no_separator by reflexivity; cbn [orb Ascii.eqb Bool.eqb].
  rewrite append_not_empty.
  rewrite Cut_app by (apply QueryEscape_no_separator; reflexivity).
  rewrite !QueryUnescape_QueryEscape. reflexivity.
Qed.

Lemma parse_settings settings : forall m err,
  foldl parse_component (m, err) (map encode_setting settings)
  = (foldl add_setting m settings, err).
Proof.
  induction settings as [|kv settings IH]; intros m err; [reflexivity|].
  cbn [map foldl]. rewrite parse_component_setting. apply IH.
Qed.

Lemma ParseQuery_Join settings :
  ParseQuery (Join (map encode_setting settings) "&")
  = (foldl add_setting ∅ settings, None).
Proof.
  unfold ParseQuery. destruct settings as [|kv settings]; [reflexivity|].
  rewrite Split_Join.
  - apply parse_settings.
  - discriminate.
  - apply Forall_forall. intros c Hc.
    apply list_elem_of_In, in_map_iff in Hc as (kv' & <- & _). apply encode_setting_clean.
Qed.

Lemma values_for_absent k settings :
  k ∉ settings.*1 -> values_for k settings = [].
Proof.
  induction settings as [|[k' v] settings IH]; simpl; intros H; [reflexivity|].
  apply not_elem_of_cons in H as [Hne Hrest].
  destruct (decide (k' = k)); [congruence|]. apply IH, Hrest.
Qed.

Lemma lookup_add_settings settings : forall (m : Values) k,
  foldl add_setting m settings !! k
  = if decide (k ∈ settings.*1)
    then Some (values_get m k ++ values_for k settings)%list
    else m !! k.
Proof.
  induction settings as [|[k' v] settings IH]; intros m k; simpl.
  - destruct (decide (k ∈ [])) as [H|_]; [|reflexivity]. inversion H.
  - rewrite IH. unfold add_setting at 1 2; simpl.
    destruct (decide (k' = k)) as [->|Hne].
    + unfold values_get at 1. rewrite !lookup_insert_eq; simpl.
      rewrite <- app_assoc; simpl.
      repeat case_decide; try reflexivity.
      * exfalso. apply H0. left.
      * rewrite values_for_absent by assumption. reflexivity.
      * exfalso. apply H0. left.
    + unfold values_get at 1. rewrite !lookup_insert_ne by exact Hne.
      fold (values_get m k).
      repeat case_decide; try reflexivity; exfalso.
      * apply H0. right. assumption.
      * apply elem_of_cons in H0 as [?|?]; [congruence|contradiction].
Qed.

Lemma values_for_app k s1 s2 :
  values_for k (s1 ++ s2) = (values_for k s1 ++ values_for k s2)%list.
Proof.
  induction s1 as [|[k' v] s1 IH]; simpl; [reflexivity|].
  destruct (decide (k' = k)); simpl; rewrite IH; reflexivity.
Qed.

Lemma values_for_pair k k' (vs : list string) :
  values_for k (map (pair k') vs) = if decide (k' = k) then vs else [].
Proof.
  induction vs as [|v vs IH]; simpl.
  - destruct (decide (k' = k)); reflexivity.
  - destruct (decide (k' = k)); simpl; rewrite IH;
      destruct (decide (k' = k)); congruence.
Qed.

Lemma values_for_settings_of (v : Values) keys k :
  NoDup keys ->
  values_for k (settings_of v keys) = if decide (k ∈ keys) then values_get v k else [].
Proof.
  unfold settings_of. induction keys as [|k' keys IH]; simpl; intros Hnd.
  - destruct (decide (k ∈ [])) as [H|_]; [inversion H|reflexivity].
  - apply NoDup_cons in Hnd as [Hk' Hnd].
    rewrite values_for_app, values_for_pair, (IH Hnd).
    repeat case_decide; subst; try reflexivity; try apply app_nil_r; exfalso.
    all: try contradiction.
    all: try (match goal with H : _ ∉ _ :: _ |- _ => apply not_elem_of_cons in H as [? ?] end;
              congruence || contradiction).
    all: match goal with H : _ ∈ _ :: _ |- _ => apply elem_of_cons in H as [?|?] end;
         congruence || contradiction.
Qed.

Lemma elem_of_pair_fst (k k' : string) (vs : list string) :
  k ∈ (map (pair k') vs : list (string * string)).*1 <-> k = k' /\ vs <> [].
Proof.
  induction vs as [|x vs IH]; simpl.
  - split; [intros H; inversion H|intros [_ H]; congruence].
  - rewrite elem_of_cons, IH. split.
    + intros [->|[-> _]]; (split; [reflexivity|discriminate]).
    + intros [-> _]. left. reflexivity.
Qed.

Lemma elem_of_settings_of (v : Values) keys k :
  k ∈ (settings_of v keys).*1 <-> k ∈ keys /\ values_get v k <> [].
Proof.
  unfold settings_of. induction keys as [|k' keys IH]; simpl.
  - split; [intros H; inversion H|intros [H _]; inversion H].
  - rewrite fmap_app, elem_of_app, IH, elem_of_cons, elem_of_pair_fst.
    split.
    + intros [[-> H]|[H1 H2]]; auto.
    + intros [[->|H1] H2]; auto.
Qed.

(** Reading back what [settings_of] lists restores the map. *)
Lemma add_settings_of (v : Values) keys :
  NoDup keys ->
  (forall k, k ∈ keys <-> is_Some (v !! k)) ->
  nonempty_values v ->
  foldl add_setting ∅ (settings_of v keys) = v.
Proof.
  intros Hnd Hkeys Hne. apply map_eq. intros k.
  rewrite lookup_add_settings, (values_for_settings_of _ _ _ Hnd).
  unfold values_get at 1. rewrite lookup_empty; simpl.
  destruct (decide (k ∈ (settings_of v keys).*1)) as [Hin|Hn].
  - apply elem_of_settings_of in Hin as [Hin Hv].
    destruct (decide (k ∈ keys)); [|contradiction].
    apply Hkeys in Hin as [vs Hvs]. unfold values_get. rewrite Hvs. reflexivity.
  - destruct (v !! k) as [vs|] eqn:Hvs; [|reflexivity].
    exfalso. apply Hn, elem_of_settings_of. split.
    + apply Hkeys. eauto.
    + unfold values_get. rewrite Hvs. simpl. eapply Hne, Hvs.
Qed.

Lemma sorted_keys_perm (v : Values) : sorted_keys v ≡ₚ (map_to_list v).*1.
Proof. unfold sorted_keys. apply merge_sort_Permutation. Qed.

Lemma sorted_keys_NoDup (v : Values) : NoDup (sorted_keys v).
Proof. rewrite sorted_keys_perm. apply NoDup_fst_map_to_list. Qed.

Lemma elem_of_sorted_keys (v : Values) k : k ∈ sorted_keys v <-> is_Some (v !! k).
Proof.
  rewrite sorted_keys_perm. split.
  - intros H. apply list_elem_of_fmap in H as ([k' vs] & -> & H).
    apply elem_of_map_to_list in H. eauto.
  - intros [vs H]. apply list_elem_of_fmap. exists (k, vs).
    split; [reflexivity|]. apply elem_of_map_to_list, H.
Qed.

Lemma Encode_settings (v : Values) :
  Encode v = Join (map encode_setting (settings_of v (sorted_keys v))) "&".
Proof.
  unfold Encode, settings_of. f_equal.
  induction (sorted_keys v) as [|k keys IH]; simpl; [reflexivity|].
  rewrite map_app, IH. f_equal.
  unfold encode_key. rewrite map_map. reflexivity.
Qed.

(** [ParseQuery] undoes [Encode]. *)
Lemma ParseQuery_Encode (v : Values) :
  nonempty_values v -> ParseQuery (Encode v) = (v, None).
Proof.
  intros Hne. rewrite Encode_settings, ParseQuery_Join.
  rewrite add_settings_of; auto using sorted_keys_NoDup, elem_of_sorted_keys.
Qed.

Lemma parse_component_setting_of m err component :
  fst (parse_component (m, err) component)
  = match setting_of component with
    | Some kv => add_setting m kv
    | None => m
    end.
Proof.
  unfold parse_component, setting_of.
  destruct (Contains component ";"); [reflexivity|].
  destruct (String.eqb component ""); [reflexivity|].
  destruct (Cut "=" component) as [key value].
  destruct (QueryUnescape key); [|reflexivity].
  destruct (QueryUnescape value); reflexivity.
Qed.

Lemma parse_components components : forall acc,
  fst (foldl parse_component acc components)
  = foldl add_setting (fst acc) (omap setting_of components).
Proof.
  induction components as [|c components IH]; intros [m err]; [reflexivity|].
  change (omap setting_of (c :: components))
    with (match setting_of c with
          | Some kv => kv :: omap setting_of components
          | None => omap setting_of components
          end).
  cbn [foldl]. rewrite IH, parse_component_setting_of.
  destruct (setting_of c); reflexivity.
Qed.

Lemma ParseQuery_settings query :
  fst (ParseQuery query) = foldl add_setting ∅ (query_settings query).
Proof. apply parse_components. Qed.

Lemma add_setting_nonempty m kv :
  nonempty_values m -> nonempty_values (add_setting m kv).
Proof.
  intros H k vs. unfold add_setting. rewrite lookup_insert.
  case_decide.
  - intros [= <-]. destruct (values_get m kv.1); discriminate.
  - apply H.
Qed.

Lemma add_settings_nonempty settings : forall m,
  nonempty_values m -> nonempty_values (foldl add_setting m settings).
Proof.
  induction settings as [|kv settings IH]; intros m H; [exact H|].
  apply IH, add_setting_nonempty, H.
Qed.

Lemma ParseQuery_nonempty query : nonempty_values (fst (ParseQuery query)).
Proof.
  rewrite ParseQuery_settings. apply add_settings_nonempty.
  intros k vs H. rewrite lookup_empty in H. discriminate.
Qed.

(** What the redaction loop leaves under each name. *)
Lemma redact_keys_lookup keys : forall (m : Values) k,
  foldr (fun name vs => if EqualFold_sig name then <[name := [REDACTED]]> vs else vs) m keys !! k
  = if decide (k ∈ keys) then (if EqualFold_sig k then Some [REDACTED] else m !! k)
    else m !! k.
Proof.
  induction keys as [|k' keys IH]; intros m k; cbn [foldr].
  - case_decide as H; [inversion H|reflexivity].
  - destruct (EqualFold_sig k') eqn:Hk'.
    + rewrite lookup_insert. case_decide as Heq.
      * subst k'. rewrite Hk'. case_decide as H; [reflexivity|].
        exfalso. apply H. left.
      * rewrite IH. repeat case_decide; try reflexivity; exfalso.
        -- apply H0. right. assumption.
        -- apply elem_of_cons in H0 as [?|?]; [congruence|contradiction].
    + rewrite IH. repeat case_decide; try reflexivity.
      * exfalso. apply H0. right. assumption.
      * apply elem_of_cons in H0 as [->|?]; [|contradiction].
        rewrite Hk'. reflexivity.
Qed.

Lemma redact_values_lookup (m : Values) k :
  redact_values m !! k
  = if EqualFold_sig k then (fun _ => [REDACTED]) <$> m !! k else m !! k.
Proof.
  unfold redact_values. rewrite redact_keys_lookup.
  destruct (EqualFold_sig k); [|case_decide; reflexivity].
  case_decide as H.
  - apply list_elem_of_fmap in H as ([k' vs] & -> & H).
    apply elem_of_map_to_list in H. simpl. rewrite H. reflexivity.
  - destruct (m !! k) as [vs|] eqn:E; [|reflexivity].
    exfalso. apply H. apply list_elem_of_fmap. exists (k, vs).
    split; [reflexivity|]. apply elem_of_map_to_list, E.
Qed.

Lemma redact_values_nonempty m :
  nonempty_values m -> nonempty_values (redact_values m).
Proof.
  intros H k vs. rewrite redact_values_lookup.
  destruct (EqualFold_sig k); [|apply H].
  destruct (m !! k); simpl; [|discriminate].
  intros [= <-]. discriminate.
Qed.



End UrlFacts.

(** ** The query redactor *)
Module Redactor.
Import UrlDefs UrlFacts.

(** The redacting path: the result is the encoding of the redacted map,
    whatever the parser said about errors. *)
Lemma redact_found_eq sigFound rawQuery :
  redact_found sigFound rawQuery
  = (sigFound, Encode (redact_values (fst (ParseQuery rawQuery)))).
Proof.
  unfold redact_found. destruct (ParseQuery rawQuery) as [values err]. reflexivity.
Qed.

Lemma redactSigQueryParam_found rawQuery :
  fst (redactSigQueryParam rawQuery) = true ->
  redactSigQueryParam rawQuery
  = (true, Encode (redact_values (fst (ParseQuery (ToLower rawQuery))))).
Proof.
  unfold redactSigQueryParam.
  destruct (Contains (ToLower rawQuery) "?sig=") eqn:H1; cbn [negb].
  - rewrite redact_found_eq. reflexivity.
  - destruct (Contains (ToLower rawQuery) "&sig=") eqn:H2; cbn [negb].
    + rewrite redact_found_eq. reflexivity.
    + cbn [fst]. discriminate.
Qed.

Lemma redactSigQueryParam_not_found rawQuery :
  fst (redactSigQueryParam rawQuery) = false ->
  redactSigQueryParam rawQuery = (false, ToLower rawQuery).
Proof.
  unfold redactSigQueryParam.
  destruct (Contains (ToLower rawQuery) "?sig=") eqn:H1; cbn [negb].
  - rewrite redact_found_eq. cbn [fst]. discriminate.
  - destruct (Contains (ToLower rawQuery) "&sig=") eqn:H2; cbn [negb].
    + rewrite redact_found_eq. cbn [fst]. discriminate.
    + reflexivity.
Qed.

(** The flag says whether the lower-cased text holds [?sig=] or [&sig=]. *)
Lemma redactSigQueryParam_flag rawQuery :
  fst (redactSigQueryParam rawQuery)
  = Contains (ToLower rawQuery) "?sig=" || Contains (ToLower rawQuery) "&sig=".
Proof.
  unfold redactSigQueryParam.
  destruct (Contains (ToLower rawQuery) "?sig="); cbn [negb orb].
  - rewrite redact_found_eq. reflexivity.
  - destruct (Contains (ToLower rawQuery) "&sig="); cbn [negb].
    + rewrite redact_found_eq. reflexivity.
    + reflexivity.
Qed.

(** C3, on the code: a query whose first parameter is [sig] has a
    parameter named [sig], and the redactor answers found = false for it,
    because the raw query never starts with [?] and only a [sig] that
    follows [&] is looked for. *)
Theorem first_parameter_sig_not_found :
  has_sig_parameter "sig=ABCD&comp=list" = true /\
  redactSigQueryParam "sig=ABCD&comp=list" = (false, "sig=abcd&comp=list").
Proof. split; vm_compute; reflexivity. Qed.

(** C4, on the code: for a query without any [sig] parameter the
    redactor answers found = false and returns the lower-cased query,
    which differs from the query it was given. *)
Theorem no_sig_query_is_lowered :
  has_sig_parameter "Comp=List" = false /\
  redactSigQueryParam "Comp=List" = (false, "comp=list") /\
  snd (redactSigQueryParam "Comp=List") <> "Comp=List".
Proof.
  split; [vm_compute; reflexivity|].
  split; [vm_compute; reflexivity|].
  vm_compute. discriminate.
Qed.




(** C10: the query [a=%zz&sig=x] does not parse cleanly, the parser
    reports the bad escape, and the redactor still answers found = true
    with an output in which the setting of [a] is gone. *)
Theorem malformed_components_are_dropped :
  exists rawQuery : string,
    snd (ParseQuery (ToLower rawQuery)) = Some (EscapeError "%zz") /\
    Contains rawQuery "a=%zz" = true /\
    redactSigQueryParam rawQuery = (true, "sig=REDACTED") /\
    snd (redactSigQueryParam rawQuery) <> rawQuery.
Proof.
  exists "a=%zz&sig=x".
  split; [vm_compute; reflexivity|].
  split; [vm_compute; reflexivity|].
  split; [vm_compute; reflexivity|].
  vm_compute. discriminate.
Qed.

End Redactor.

(** ** The policy's [Do] *)
Module PolicyFacts.
Import PolicyDefs.
Local Open Scope list_scope.

Lemma heap_extends_refl h : heap_extends h h.
Proof. unfold heap_extends. auto. Qed.

Lemma heap_extends_trans h1 h2 h3 :
  heap_extends h1 h2 -> heap_extends h2 h3 -> heap_extends h1 h3.
Proof.
  intros (a1 & b1 & c1 & d1) (a2 & b2 & c2 & d2).
  split; [lia|]. split; [lia|]. split.
  - intros i Hi. rewrite c2 by lia. apply c1, Hi.
  - intros i Hi. rewrite d2 by lia. apply d1, Hi.
Qed.

#[local] Hint Resolve heap_extends_refl : core.

Lemma after_nothing w : after w (heap w) [] = w.
Proof. destruct w. unfold after; simpl. rewrite app_nil_r. reflexivity. Qed.

Lemma after_after w h events h' events' :
  after (after w h events) h' events' = after w h' (events ++ events').
Proof. unfold after; simpl. rewrite app_assoc. reflexivity. Qed.

(** Making the copy for the log changes no object of the store. *)
Lemma prepareRequestForLogging_spec request w :
  exists req h',
    prepareRequestForLogging request w = Returns req (after w h' []) /\
    heap_extends (heap w) h' /\
    (fst (redactSigQueryParam (RawQuery (urls (heap w) (URLptr (requests (heap w) request))))) = true ->
     req <> request \/ n_requests (heap w) <= request).
Proof.
  unfold prepareRequestForLogging, bind, get_heap.
  destruct (redactSigQueryParam _) as [[] rawQuery].
  - exists (n_requests (heap w)). eexists. split; [|split].
    + unfold Copy, set_RawQuery, bind, get_heap, put_heap, ret, after; simpl.
      rewrite Nat.eqb_refl; simpl. rewrite app_nil_r. reflexivity.
    + unfold heap_extends; simpl. split; [lia|]. split; [lia|]. split.
      * intros i Hi. destruct (Nat.eqb_spec i (n_requests (heap w))); [lia|reflexivity].
      * intros i Hi. destruct (Nat.eqb_spec i (n_urls (heap w))); [lia|reflexivity].
    + intros _. destruct (Nat.eq_dec (n_requests (heap w)) request); [right; lia|left; assumption].
  - exists request, (heap w). unfold ret. rewrite after_nothing.
    split; [reflexivity|]. split; [auto|]. cbn [fst]. discriminate.
Qed.

Lemma log_outgoing_spec p request w :
  exists h' events,
    log_outgoing p request w = Returns tt (after w h' events) /\
    heap_extends (heap w) h' /\
    outgoing_events (node_ShouldLog (node p) LogInfo) events.
Proof.
  unfold log_outgoing, ShouldLog. unfold bind at 1 2. unfold emit, ret.
  fold (after w (heap w) [EvShouldLog LogInfo]).
  destruct (node_ShouldLog (node p) LogInfo).
  - destruct (prepareRequestForLogging_spec request (after w (heap w) [EvShouldLog LogInfo]))
      as (req & h' & E & Hh & _).
    unfold bind at 1. rewrite E. rewrite after_after.
    exists h'. eexists. split; [|split; [exact Hh|]].
    + unfold WriteRequest, Log, bind, emit, get_heap, ret, after; simpl.
      rewrite <- !app_assoc; simpl. reflexivity.
    + constructor.
  - exists (heap w). eexists. split; [reflexivity|]. split; [auto|constructor].
Qed.

Ltac run_step :=
  unfold WriteRequest, WriteRequestWithResponse, Log, ForceLog, stack, response_Response,
    bind, emit, get_heap, put_heap, ret, after; simpl;
  rewrite <- ?app_assoc; simpl.

Lemma log_outcome_spec p request response err tryDuration opDuration severity logMsg w :
  logMsg = MsgNetworkError \/ response <> None ->
  exists h' events,
    log_outcome p request response err tryDuration opDuration severity logMsg false w
    = Returns tt (after w h' events) /\
    heap_extends (heap w) h' /\
    outcome_events severity (node_ShouldLog (node p) severity) logMsg events.
Proof.
  intros Hresp.
  unfold log_outcome, ShouldLog. unfold bind at 1 2. unfold emit, ret.
  fold (after w (heap w) [EvShouldLog severity]).
  destruct (node_ShouldLog (node p) severity); cbn [orb].
  - destruct (prepareRequestForLogging_spec request (after w (heap w) [EvShouldLog severity]))
      as (req & h' & E & Hh & _).
    exists h'.
    destruct logMsg; unfold run_logMsg; unfold bind at 1 2; rewrite E, after_after.
    + destruct response as [r|]; [|destruct Hresp; congruence].
      eexists. split; [run_step; reflexivity|]. split; [exact Hh|constructor].
    + destruct response as [r|]; [|destruct Hresp; congruence].
      eexists. split; [run_step; reflexivity|]. split; [exact Hh|constructor].
    + destruct response as [r|]; [|destruct Hresp; congruence].
      eexists. split; [run_step; reflexivity|]. split; [exact Hh|].
      econstructor. cbn. repeat (first [left; reflexivity | right]).
    + eexists. split; [run_step; reflexivity|]. split; [exact Hh|].
      econstructor. cbn. repeat (first [left; reflexivity | right]).
  - exists (heap w). eexists. split; [reflexivity|]. split; [auto|constructor].
Qed.

(** What lines 98 to 139 compute, case by case. *)
Lemma classify_try_network_error p tryDuration response e w :
  classify_try p tryDuration response (Some e) w
  = Returns (LogError, MsgNetworkError, false) w.
Proof. unfold classify_try. destruct (_ && _); reflexivity. Qed.

Lemma classify_try_nil p tryDuration w :
  classify_try p tryDuration None None w = Panics w.
Proof. unfold classify_try. destruct (_ && _); reflexivity. Qed.

Lemma classify_try_response p tryDuration r w :
  classify_try p tryDuration (Some r) None w
  = Returns (if error_status (StatusCode r) then (LogError, MsgOperationError, false)
             else if over_threshold p tryDuration then (LogWarning, MsgSlow, false)
             else (LogInfo, MsgSuccessful, false)) w.
Proof.
  unfold classify_try, error_status, over_threshold.
  destruct (_ && _); unfold bind, response_Response, ret;
    destruct (_ || _); reflexivity.
Qed.

Lemma classify_try_cases p tryDuration response err w :
  (response = None /\ err = None /\
   classify_try p tryDuration response err w = Panics w) \/
  (exists severity logMsg,
     classify_try p tryDuration response err w = Returns (severity, logMsg, false) w /\
     (logMsg = MsgNetworkError \/ response <> None) /\
     (severity = LogError <-> logMsg = MsgOperationError \/ logMsg = MsgNetworkError)).
Proof.
  destruct err as [e|].
  - right. exists LogError, MsgNetworkError.
    rewrite classify_try_network_error. intuition.
  - destruct response as [r|].
    + right. rewrite classify_try_response.
      destruct (error_status (StatusCode r)); [|destruct (over_threshold p tryDuration)];
        eexists _, _; (split; [reflexivity|]); (split; [right; discriminate|]);
        split; intros H; try discriminate; intuition; discriminate.
    + left. rewrite classify_try_nil. auto.
Qed.

(** [try_request], put together. *)
Lemma try_request_spec p request w :
  exists h1 events1,
    heap_extends (heap w) h1 /\
    outgoing_events (node_ShouldLog (node p) LogInfo) events1 /\
    let a := node_Do (node p) request h1 in
    let tryDuration := Sub (clock w (S (ticks w))) (clock w (ticks w)) in
    let w2 := mkWorld (ans_heap a) (clock w) (S (S (ticks w))) (goroutine_stack w)
                      (trace w ++ events1 ++ [EvNodeDo request]) in
    (ans_response a = None /\ ans_err a = None /\ try_request p request w = Panics w2) \/
    (exists severity logMsg h3 events3,
       classify_try p tryDuration (ans_response a) (ans_err a) w2
       = Returns (severity, logMsg, false) w2 /\
       (severity = LogError <-> logMsg = MsgOperationError \/ logMsg = MsgNetworkError) /\
       try_request p request w = Returns (ans_response a, ans_err a) (after w2 h3 events3) /\
       heap_extends (ans_heap a) h3 /\
       outcome_events severity (node_ShouldLog (node p) severity) logMsg events3).
Proof.
  destruct (log_outgoing_spec p request w) as (h1 & events1 & E1 & Hh1 & Hev1).
  exists h1, events1. split; [exact Hh1|]. split; [exact Hev1|].
  intros a tryDuration w2.
  assert (Hrun : try_request p request w
    = (let* '(severity, logMsg, forceLog) :=
         classify_try p tryDuration (ans_response a) (ans_err a) in
       do* log_outcome p request (ans_response a) (ans_err a) tryDuration
             (Sub (clock w (S (ticks w))) (operationStart p)) severity logMsg forceLog in
       ret (ans_response a, ans_err a)) w2).
  { unfold try_request. unfold bind at 1. rewrite E1.
    unfold NodeDo, Now, bind, emit, get_heap, put_heap, ret, after; simpl.
    subst w2 a tryDuration. rewrite <- !app_assoc. reflexivity. }
  rewrite Hrun. clear Hrun.
  destruct (classify_try_cases p tryDuration (ans_response a) (ans_err a) w2)
    as [(Hr & He & Hc)|(severity & logMsg & Hc & Hresp & Hsev)].
  - left. split; [exact Hr|]. split; [exact He|].
    unfold bind at 1. rewrite Hc. reflexivity.
  - right.
    destruct (log_outcome_spec p request (ans_response a) (ans_err a) tryDuration
                (Sub (clock w (S (ticks w))) (operationStart p)) severity logMsg w2 Hresp)
      as (h3 & events3 & E3 & Hh3 & Hev3).
    exists severity, logMsg, h3, events3.
    split; [exact Hc|]. split; [exact Hsev|].
    split; [|split; [exact Hh3|exact Hev3]].
    unfold bind at 1. rewrite Hc. unfold bind at 1. rewrite E3. reflexivity.
Qed.

(** [stack] returns the whole stack text: the buffer outgrows it before
    the doubling runs out. *)
Lemma substring_whole s : String.substring 0 (String.length s) s = s.
Proof. induction s as [|c s IH]; simpl; [reflexivity|]. rewrite IH. reflexivity. Qed.

Lemma stack_loop_whole fuel : forall size text,
  String.length text < size * 2 ^ fuel ->
  stack_loop fuel size text = text.
Proof.
  induction fuel as [|fuel IH]; intros size text Hlen; cbn [stack_loop].
  - cbn in Hlen. rewrite Nat.min_l by lia. apply substring_whole.
  - destruct (Nat.ltb_spec (Nat.min (String.length text) size) size) as [Hlt|Hge].
    + rewrite Nat.min_l by lia. apply substring_whole.
    + apply IH. cbn [Nat.pow] in Hlen. lia.
Qed.

Lemma stack_whole w :
  stack w = Returns (goroutine_stack w) (after w (heap w) [EvStack]).
Proof.
  unfold stack, bind, emit, after; cbn.
  rewrite stack_loop_whole; [reflexivity|].
  assert (String.length (goroutine_stack w) < 2 ^ String.length (goroutine_stack w))
    by (apply Nat.pow_gt_lin_r; lia).
  lia.
Qed.

(** Lines 78 to 81 touch the counter, the start time and the clock. *)
Lemma begin_try_spec p w :
  let p' := fst (begin_try p w) in
  let w' := snd (begin_try p w) in
  node p' = node p /\ o p' = o p /\
  try p' = wrap_int32 (try p + 1) /\
  heap w' = heap w /\ trace w' = trace w /\ clock w' = clock w /\
  (if (try p' =? 1)%Z
   then operationStart p' = clock w (ticks w) /\ ticks w' = S (ticks w)
   else operationStart p' = operationStart p /\ ticks w' = ticks w).
Proof.
  unfold begin_try; cbn [try node o operationStart].
  destruct (wrap_int32 (try p + 1) =? 1)%Z eqn:E; cbn; rewrite ?E; auto 10.
Qed.

Lemma Do_eq p request w :
  Do p request w
  = (fst (begin_try p w), try_request (fst (begin_try p w)) request (snd (begin_try p w))).
Proof. unfold Do. destruct (begin_try p w). reflexivity. Qed.

(** The events of one call of [Do], and what it returns. *)
Lemma Do_spec p request w :
  exists h1 events1,
    heap_extends (heap w) h1 /\
    outgoing_events (node_ShouldLog (node p) LogInfo) events1 /\
    let a := node_Do (node p) request h1 in
    (ans_response a = None /\ ans_err a = None /\
     (exists w', snd (Do p request w) = Panics w' /\
                 trace w' = trace w ++ events1 ++ [EvNodeDo request] ++ [])) \/
    (exists severity logMsg tryDuration w2 w' events3,
       classify_try (fst (begin_try p w)) tryDuration (ans_response a) (ans_err a) w2
       = Returns (severity, logMsg, false) w2 /\
       (severity = LogError <-> logMsg = MsgOperationError \/ logMsg = MsgNetworkError) /\
       snd (Do p request w) = Returns (ans_response a, ans_err a) w' /\
       heap_extends (ans_heap a) (heap w') /\
       trace w' = trace w ++ events1 ++ [EvNodeDo request] ++ events3 /\
       outcome_events severity (node_ShouldLog (node p) severity) logMsg events3).
Proof.
  rewrite Do_eq. cbn [snd].
  destruct (begin_try_spec p w) as (Hn & _ & _ & Hh & Ht & _).
  destruct (try_request_spec (fst (begin_try p w)) request (snd (begin_try p w)))
    as (h1 & events1 & Hh1 & Hev1 & Hcases).
  rewrite Hn, Hh in *. exists h1, events1.
  split; [exact Hh1|]. split; [exact Hev1|].
  cbv zeta in Hcases |- *. rewrite Ht in Hcases.
  destruct Hcases as [(Hr & He & E)|(severity & logMsg & h3 & events3 & Hc & Hsev & E & Hh3 & Hev3)].
  - left. split; [exact Hr|]. split; [exact He|].
    eexists. split; [exact E|]. cbn. reflexivity.
  - right. do 6 eexists.
    split; [exact Hc|]. split; [exact Hsev|]. split; [exact E|].
    split; [exact Hh3|]. split; [|exact Hev3].
    cbn. rewrite <- !app_assoc. reflexivity.
Qed.

End PolicyFacts.

(** ** The try counter and the start of the operation *)
Module TryCounter.
Import PolicyDefs PolicyFacts.
Local Open Scope Z_scope.

Lemma wrap_int32_small x :
  -2147483648 <= x <= 2147483647 -> wrap_int32 x = x.
Proof.
  intros H. unfold wrap_int32.
  change (2 ^ 31) with 2147483648. change (2 ^ 32) with 4294967296.
  rewrite Z.mod_small by lia. lia.
Qed.

Lemma wrap_int32_succ x : wrap_int32 (wrap_int32 x + 1) = wrap_int32 (x + 1).
Proof.
  unfold wrap_int32.
  change (2 ^ 31) with 2147483648. change (2 ^ 32) with 4294967296.
  f_equal.
  replace ((x + 2147483648) mod 4294967296 - 2147483648 + 1 + 2147483648)
    with ((x + 2147483648) mod 4294967296 + 1) by lia.
  rewrite Zplus_mod_idemp_l. f_equal. lia.
Qed.

Lemma Do_policy p request w :
  fst (Do p request w)
  = mkPolicy (node p) (o p) (wrap_int32 (try p + 1))
      (if wrap_int32 (try p + 1) =? 1 then clock w (ticks w) else operationStart p).
Proof.
  rewrite Do_eq. cbn [fst]. unfold begin_try; cbn [try node o operationStart].
  destruct (wrap_int32 (try p + 1) =? 1); reflexivity.
Qed.

(** The counter is the number of calls, as an [int32]. *)
Lemma calls_try k p : calls k p -> 0 <= k /\ try p = wrap_int32 k.
Proof.
  induction 1 as [f n|k p request w _ [IHk IHtry]].
  - split; [lia|reflexivity].
  - split; [lia|]. rewrite Do_policy; cbn [try].
    rewrite IHtry. apply wrap_int32_succ.
Qed.

(** C6, amended: on a policy made by [New] and called [k] times before,
    with [k] below 2^31 - 1, the next call of [Do] moves the counter from
    [k] to [k + 1]; the first call sets the start time to the clock
    reading it takes, and every later call leaves the start time as it
    was. *)
Theorem try_counter_and_operation_start k p request w :
  calls k p ->
  k < 2147483647 ->
  try p = k /\
  try (fst (Do p request w)) = k + 1 /\
  (k = 0 -> operationStart (fst (Do p request w)) = clock w (ticks w)) /\
  (0 < k -> operationStart (fst (Do p request w)) = operationStart p).
Proof.
  intros Hcalls Hk. destruct (calls_try k p Hcalls) as [H0 Htry].
  rewrite wrap_int32_small in Htry by lia.
  rewrite Do_policy; cbn [try operationStart].
  rewrite Htry, wrap_int32_small by lia.
  split; [reflexivity|]. split; [reflexivity|]. split.
  - intros ->. reflexivity.
  - intros Hpos. destruct (Z.eqb_spec (k + 1) 1); [lia|reflexivity].
Qed.

Lemma try_counter_and_operation_start_witness :
  try (New default_factory quiet_node) = 0 /\
  try (fst (Do (New default_factory quiet_node) 0%nat ticking_world)) = 0 + 1 /\
  (0 = 0 -> operationStart (fst (Do (New default_factory quiet_node) 0%nat ticking_world))
            = clock ticking_world (ticks ticking_world)) /\
  (0 < 0 -> operationStart (fst (Do (New default_factory quiet_node) 0%nat ticking_world))
            = operationStart (New default_factory quiet_node)).
Proof.
  apply (try_counter_and_operation_start 0 (New default_factory quiet_node) 0%nat ticking_world).
  - apply calls_New.
  - lia.
Defined.

Lemma calls_called (n : nat) :
  calls (Z.of_nat n + 1) (called (wrap_int32 (Z.of_nat n + 1))).
Proof.
  induction n as [|n IH].
  - change (Z.of_nat 0 + 1) with (0 + 1) at 1.
    replace (called (wrap_int32 (Z.of_nat 0 + 1)))
      with (fst (Do (New default_factory quiet_node) 0%nat (world1 "" (fun _ => 0)))).
    + apply calls_Do, calls_New.
    + rewrite Do_policy. reflexivity.
  - rewrite Nat2Z.inj_succ. unfold Z.succ.
    replace (called (wrap_int32 (Z.of_nat n + 1 + 1)))
      with (fst (Do (called (wrap_int32 (Z.of_nat n + 1))) 0%nat (world1 "" (fun _ => 0)))).
    + apply calls_Do, IH.
    + rewrite Do_policy. unfold called; cbn [node o try operationStart].
      rewrite wrap_int32_succ.
      destruct (wrap_int32 (Z.of_nat n + 1 + 1) =? 1); reflexivity.
Qed.

Lemma calls_called_pos k : 0 < k -> calls k (called (wrap_int32 k)).
Proof.
  intros Hk. replace k with (Z.of_nat (Z.to_nat (k - 1)) + 1) by (rewrite Z2Nat.id; lia).
  apply calls_called.
Qed.

(** C6 as stated fails at the end of the [int32] range: after
    2147483647 calls the counter holds 2147483647, and the next call
    takes it to -2147483648, not one higher; after 4294967296 calls it
    holds 0 again, and the next call sets the start time anew. *)
Lemma try_counter_wraps :
  calls 2147483647 (called 2147483647) /\
  try (fst (Do (called 2147483647) 0%nat ticking_world)) = -2147483648 /\
  try (fst (Do (called 2147483647) 0%nat ticking_world)) <> try (called 2147483647) + 1 /\
  calls 4294967296 (called 0) /\
  operationStart (called 0) = 0 /\
  operationStart (fst (Do (called 0) 0%nat (world1 "comp=list" (fun _ => 7)))) = 7.
Proof.
  split; [apply (calls_called_pos 2147483647); lia|].
  split; [rewrite Do_policy; reflexivity|].
  split; [rewrite Do_policy; vm_compute; discriminate|].
  split; [apply (calls_called_pos 4294967296); lia|].
  split; [reflexivity|].
  rewrite Do_policy. reflexivity.
Qed.

End TryCounter.

(** ** Classification, channels and the returned result *)
Module Policy.
Import PolicyDefs PolicyFacts.
Local Open Scope list_scope.

(** The severity of lines 98 to 139 is the stated one. *)
Lemma classify_try_severity p tryDuration response err w severity logMsg forceLog w' :
  classify_try p tryDuration response err w = Returns (severity, logMsg, forceLog) w' ->
  severity
  = fst (stated_classification
           (match err with Some _ => true | None => false end)
           (match response with Some r => StatusCode r | None => 0%Z end)
           tryDuration (LogWarningIfTryOverThreshold (o p))).
Proof.
  destruct err as [e|].
  - rewrite classify_try_network_error. intros [= <- _ _ _]. reflexivity.
  - destruct response as [r|]; [|rewrite classify_try_nil; discriminate].
    rewrite classify_try_response.
    unfold error_status, over_threshold, stated_classification.
    destruct ((500 <=? StatusCode r)%Z && (StatusCode r <=? 599)%Z);
      [rewrite orb_true_r; intros [= <- _ _ _]; reflexivity|].
    rewrite orb_false_r.
    destruct (_ && _ && _ && _ && _ && _); [intros [= <- _ _ _]; reflexivity|].
    destruct (_ && _); intros [= <- _ _ _]; reflexivity.
Qed.

(** The flag [forceLog] is still false when line 141 tests it. *)
Lemma classify_try_forceLog p tryDuration response err w severity logMsg forceLog w' :
  classify_try p tryDuration response err w = Returns (severity, logMsg, forceLog) w' ->
  forceLog = false.
Proof.
  destruct err as [e|].
  - rewrite classify_try_network_error. intros [= _ _ <- _]. reflexivity.
  - destruct response as [r|]; [|rewrite classify_try_nil; discriminate].
    rewrite classify_try_response.
    destruct (error_status _); [|destruct (over_threshold _ _)];
      intros [= _ _ <- _]; reflexivity.
Qed.

(** Nothing reaches the forced channel unless the filter accepted the
    severity. *)
Lemma forced_only_if_accepted p request w level msg :
  In (EvForceLog level msg) (trace_of (Do p request w)) ->
  In (EvForceLog level msg) (trace w) \/ node_ShouldLog (node p) level = true.
Proof.
  unfold trace_of.
  destruct (Do_spec p request w) as (h1 & events1 & _ & Hev1 & Hcases).
  cbv zeta in Hcases.
  assert (Hno1 : ~ In (EvForceLog level msg) events1).
  { inversion Hev1; subst; cbn; intuition discriminate. }
  destruct Hcases as [(_ & _ & w' & E & Ht)|
                      (severity & logMsg & td & w2 & w' & events3 & _ & _ & E & _ & Ht & Hev3)];
    rewrite E; cbn [outcome_world]; rewrite Ht, !in_app_iff; cbn [In].
  - intuition discriminate.
  - intros [H|[H|[H|H]]]; [left; exact H|contradiction|destruct H as [H|[]]; discriminate|].
    right. destruct (node_ShouldLog (node p) severity) eqn:Hacc;
      inversion Hev3; subst; cbn in H;
      repeat (destruct H as [H|H]; [try discriminate; injection H as <- _; exact Hacc|]);
      contradiction.
Qed.

(** C1, on the code: a transport error under a filter that rejects
    every level, and a try over the threshold under the same filter,
    leave nothing on the forced channel; the only events are the two
    questions to the filter and the call of the next stage. *)
Theorem forced_channel_silent_when_filter_rejects :
  trace_of (Do (New (NewRequestLogPolicyFactory (mkRequestLogOptions 0%Z))
                    (mkNode (fun _ => false) (stage None (Some "connection reset"))))
               0 (world1 "comp=list" (fun n => Z.of_nat n)))
  = [EvShouldLog LogInfo; EvNodeDo 0; EvShouldLog LogError] /\
  trace_of (Do (New (NewRequestLogPolicyFactory (mkRequestLogOptions (2 * Second)%Z))
                    (mkNode (fun _ => false) (stage (Some (mkResponse 200%Z "200 OK")) None)))
               0 (world1 "comp=list" (fun n => (Z.of_nat n * 2500000000)%Z)))
  = [EvShouldLog LogInfo; EvNodeDo 0; EvShouldLog LogWarning].
Proof. split; vm_compute; reflexivity. Qed.

(** C2, on the code: for a transport error the stated classification is
    (Error, force = true), and lines 98 to 139 reach line 141 with
    severity Error and [forceLog] false. *)
Theorem transport_error_reaches_test_unforced :
  stated_classification true 0%Z 0%Z (3 * Second)%Z = (LogError, true) /\
  classify_try (New (NewRequestLogPolicyFactory (mkRequestLogOptions 0%Z))
                    (mkNode (fun _ => false) (stage None (Some "connection reset"))))
               0%Z None (Some "connection reset")
               (world1 "comp=list" (fun n => Z.of_nat n))
  = Returns (LogError, MsgNetworkError, false) (world1 "comp=list" (fun n => Z.of_nat n)).
Proof. split; reflexivity. Qed.

(** The closure chosen by lines 98 to 139 tells the case. *)
Lemma classify_try_logMsg p tryDuration response err w severity logMsg forceLog w' :
  classify_try p tryDuration response err w = Returns (severity, logMsg, forceLog) w' ->
  match logMsg with
  | MsgNetworkError => err <> None /\ severity = LogError
  | MsgOperationError =>
      (exists r, response = Some r /\ error_status (StatusCode r) = true) /\
      severity = LogError
  | MsgSlow => over_threshold p tryDuration = true /\ severity = LogWarning
  | MsgSuccessful => severity = LogInfo
  end.
Proof.
  destruct err as [e|].
  - rewrite classify_try_network_error. intros [= <- <- _ _]. split; [discriminate|reflexivity].
  - destruct response as [r|]; [|rewrite classify_try_nil; discriminate].
    rewrite classify_try_response.
    destruct (error_status (StatusCode r)) eqn:Hs;
      [|destruct (over_threshold p tryDuration) eqn:Ht]; intros [= <- <- _ _].
    + split; [exists r; auto|reflexivity].
    + auto.
    + reflexivity.
Qed.

Lemma outgoing_events_level accepted events e :
  outgoing_events accepted events -> In e events ->
  event_level e = Some LogInfo \/ event_level e = None.
Proof.
  intros H Hin. inversion H; subst; cbn in Hin;
    repeat (destruct Hin as [<-|Hin]; [cbn; auto|]); contradiction.
Qed.

Lemma outcome_events_level severity accepted logMsg events e :
  outcome_events severity accepted logMsg events -> In e events ->
  event_level e = Some severity \/ event_level e = None.
Proof.
  intros H Hin. inversion H; subst; cbn in Hin;
    repeat (destruct Hin as [<-|Hin]; [cbn; auto|]); contradiction.
Qed.

(** With a threshold that is not positive no event of a call is at
    level Warning. *)
Lemma no_warning_without_threshold p request w e :
  (LogWarningIfTryOverThreshold (o p) <= 0)%Z ->
  In e (trace_of (Do p request w)) ->
  event_level e = Some LogWarning ->
  In e (trace w).
Proof.
  intros Hthr Hin Hlevel. unfold trace_of in Hin.
  destruct (Do_spec p request w) as (h1 & events1 & _ & Hev1 & Hcases).
  cbv zeta in Hcases.
  destruct Hcases as [(_ & _ & w' & E & Ht)|
                      (severity & logMsg & td & w2 & w' & events3 & Hc & _ & E & _ & Ht & Hev3)];
    rewrite E in Hin; cbn [outcome_world] in Hin; rewrite Ht, !in_app_iff in Hin.
  - destruct Hin as [H|[H|[H|H]]]; [exact H| | |contradiction].
    + destruct (outgoing_events_level _ _ _ Hev1 H); congruence.
    + destruct H as [<-|[]]. discriminate.
  - destruct Hin as [H|[H|[H|H]]]; [exact H| | |].
    + destruct (outgoing_events_level _ _ _ Hev1 H); congruence.
    + destruct H as [<-|[]]. discriminate.
    + exfalso. destruct (outcome_events_level _ _ _ _ _ Hev3 H) as [Hl|Hl]; [|congruence].
      assert (severity = LogWarning) as -> by congruence.
      apply classify_try_severity in Hc.
      destruct (begin_try_spec p w) as (_ & Ho & _). rewrite Ho in Hc.
      unfold stated_classification in Hc.
      replace (0 <? LogWarningIfTryOverThreshold (o p))%Z with false in Hc
        by (symmetry; apply Z.ltb_ge; exact Hthr).
      cbn [andb] in Hc.
      repeat match type of Hc with
             | context [if ?b then _ else _] => destruct b; cbn [fst] in Hc; try discriminate
             end.
Qed.

(** C7: the factory replaces a threshold of 0 by three seconds and keeps
    any other value; with a negative threshold no try is classified
    Warning; otherwise a try that got a response without an error status
    is classified Warning exactly when its duration is greater than the
    threshold, so a duration equal to the threshold stays Info. *)
Theorem threshold_configuration (n : Node) (t tryDuration : Duration) (r : Response) (w : World) :
  let p := New (NewRequestLogPolicyFactory (mkRequestLogOptions t)) n in
  let threshold := LogWarningIfTryOverThreshold (o p) in
  (t = 0%Z -> threshold = (3 * Second)%Z) /\
  (t <> 0%Z -> threshold = t) /\
  ((t < 0)%Z ->
     (forall response err severity logMsg forceLog w',
        classify_try p tryDuration response err w = Returns (severity, logMsg, forceLog) w' ->
        severity <> LogWarning) /\
     (forall request e, In e (trace_of (Do p request w)) ->
        event_level e = Some LogWarning -> In e (trace w))) /\
  ((0 <= t)%Z -> error_status (StatusCode r) = false ->
     classify_try p tryDuration (Some r) None w
     = Returns (if (threshold <? tryDuration)%Z then (LogWarning, MsgSlow, false)
                else (LogInfo, MsgSuccessful, false)) w) /\
  ((0 <= t)%Z -> error_status (StatusCode r) = false -> tryDuration = threshold ->
     classify_try p tryDuration (Some r) None w = Returns (LogInfo, MsgSuccessful, false) w).
Proof.
  intros p threshold.
  assert (Hzero : t = 0%Z -> threshold = (3 * Second)%Z).
  { intros ->. reflexivity. }
  assert (Hkeep : t <> 0%Z -> threshold = t).
  { intros Hne. subst threshold p. unfold NewRequestLogPolicyFactory, New; cbn.
    destruct (Z.eqb_spec t 0%Z); [contradiction|reflexivity]. }
  assert (Hpos : (0 <= t)%Z -> (0 <? threshold)%Z = true).
  { intros Ht. apply Z.ltb_lt. destruct (Z.eq_dec t 0%Z) as [E|E].
    - rewrite (Hzero E). reflexivity.
    - rewrite (Hkeep E). lia. }
  split; [exact Hzero|]. split; [exact Hkeep|]. split; [|split].
  - intros Hneg. assert (Hthr : (threshold <= 0)%Z) by (rewrite Hkeep; lia). split.
    + intros response err severity logMsg forceLog w' Hc ->.
      apply classify_try_severity in Hc. unfold stated_classification in Hc.
      fold threshold in Hc.
      replace (0 <? threshold)%Z with false in Hc by (symmetry; apply Z.ltb_ge; exact Hthr).
      cbn [andb] in Hc.
      repeat match type of Hc with
             | context [if ?b then _ else _] => destruct b; cbn [fst] in Hc; try discriminate
             end.
    + intros request e. apply no_warning_without_threshold. exact Hthr.
  - intros Ht Hs. rewrite classify_try_response, Hs. unfold over_threshold.
    fold threshold. rewrite (Hpos Ht). cbn [andb].
    destruct (threshold <? tryDuration)%Z; reflexivity.
  - intros Ht Hs ->. rewrite classify_try_response, Hs. unfold over_threshold.
    fold threshold. rewrite (Hpos Ht), Z.ltb_irrefl. reflexivity.
Qed.

Lemma threshold_configuration_witness :
  LogWarningIfTryOverThreshold
    (o (New (NewRequestLogPolicyFactory (mkRequestLogOptions 0%Z)) accepting_node))
  = (3 * Second)%Z /\
  (forall response err severity logMsg forceLog w',
     classify_try (New (NewRequestLogPolicyFactory (mkRequestLogOptions (-1)%Z)) accepting_node)
       (10 * Second)%Z response err (world1 "comp=list" (fun n => Z.of_nat n))
     = Returns (severity, logMsg, forceLog) w' ->
     severity <> LogWarning) /\
  classify_try (New (NewRequestLogPolicyFactory (mkRequestLogOptions (2 * Second)%Z)) accepting_node)
    2500000000%Z (Some (mkResponse 200%Z "200 OK")) None (world1 "comp=list" (fun n => Z.of_nat n))
  = Returns (LogWarning, MsgSlow, false) (world1 "comp=list" (fun n => Z.of_nat n)) /\
  classify_try (New (NewRequestLogPolicyFactory (mkRequestLogOptions (2 * Second)%Z)) accepting_node)
    (2 * Second)%Z (Some (mkResponse 200%Z "200 OK")) None (world1 "comp=list" (fun n => Z.of_nat n))
  = Returns (LogInfo, MsgSuccessful, false) (world1 "comp=list" (fun n => Z.of_nat n)).
Proof.
  split; [|split; [|split]].
  - apply (threshold_configuration accepting_node 0%Z 0%Z (mkResponse 200%Z "200 OK")
             (world1 "comp=list" (fun n => Z.of_nat n))).
    reflexivity.
  - apply (threshold_configuration accepting_node (-1)%Z (10 * Second)%Z (mkResponse 200%Z "200 OK")
             (world1 "comp=list" (fun n => Z.of_nat n))).
    lia.
  - apply (threshold_configuration accepting_node (2 * Second)%Z 2500000000%Z
             (mkResponse 200%Z "200 OK") (world1 "comp=list" (fun n => Z.of_nat n)));
      [vm_compute; discriminate|reflexivity].
  - apply (threshold_configuration accepting_node (2 * Second)%Z (2 * Second)%Z
             (mkResponse 200%Z "200 OK") (world1 "comp=list" (fun n => Z.of_nat n)));
      [vm_compute; discriminate|reflexivity|reflexivity].
Defined.

(** C8: the next stage is called with the caller's request, in a store
    where every object the caller had is as it was; whatever [Do]
    returns is the response and the error of the next stage, in a store
    where every object the next stage left is as it left it; and [Do]
    does return when the next stage gave a response or an error.  The
    copy made for the log never changes an object of the store. *)
Theorem Do_returns_what_the_next_stage_returned p request w :
  (forall w0, exists req h',
     prepareRequestForLogging request w0 = Returns req (after w0 h' []) /\
     heap_extends (heap w0) h') /\
  exists h1,
    heap_extends (heap w) h1 /\
    let a := node_Do (node p) request h1 in
    In (EvNodeDo request) (trace_of (Do p request w)) /\
    (forall result w', snd (Do p request w) = Returns result w' ->
       result = (ans_response a, ans_err a) /\ heap_extends (ans_heap a) (heap w')) /\
    (ans_response a <> None \/ ans_err a <> None ->
     exists w', snd (Do p request w) = Returns (ans_response a, ans_err a) w').
Proof.
  split.
  { intros w0. destruct (prepareRequestForLogging_spec request w0) as (req & h' & E & Hh & _).
    exists req, h'. auto. }
  destruct (Do_spec p request w) as (h1 & events1 & Hh1 & _ & Hcases).
  exists h1. split; [exact Hh1|]. cbv zeta in Hcases |- *. unfold trace_of.
  destruct Hcases as [(Hr & He & w' & E & Ht)|
                      (severity & logMsg & td & w2 & w' & events3 & _ & _ & E & Hh3 & Ht & _)];
    rewrite E; cbn [outcome_world]; rewrite Ht.
  - split; [rewrite !in_app_iff; cbn; auto|]. split.
    + intros result w'' H. discriminate.
    + intros [H|H]; congruence.
  - split; [rewrite !in_app_iff; cbn; auto|]. split.
    + intros result w'' [= <- <-]. auto.
    + intros _. exists w'. reflexivity.
Qed.

Lemma Do_returns_what_the_next_stage_returned_witness :
  exists w',
    snd (Do (New (NewRequestLogPolicyFactory (mkRequestLogOptions 0%Z)) accepting_node)
            0 (world1 "comp=list&sig=AbC" (fun n => Z.of_nat n)))
    = Returns (Some (mkResponse 200%Z "200 OK"), None) w'.
Proof.
  destruct (Do_returns_what_the_next_stage_returned
              (New (NewRequestLogPolicyFactory (mkRequestLogOptions 0%Z)) accepting_node)
              0 (world1 "comp=list&sig=AbC" (fun n => Z.of_nat n)))
    as (_ & h1 & _ & _ & _ & Hret).
  apply Hret. left. discriminate.
Defined.

(** C9: the events of a call are those of the outgoing record, the call
    of the next stage, and those of the outcome record.  No stack is
    captured for the outgoing record.  For either record, when nothing
    is emitted nothing is rendered and no stack is captured.  When a
    stack is captured for the outcome, the try ended in a transport error
    or in a response with an error status, and the message that holds
    the stack is logged at level Error. *)
Theorem stack_only_for_logged_errors p request w :
  exists h1 events1 events3,
    heap_extends (heap w) h1 /\
    let a := node_Do (node p) request h1 in
    trace_of (Do p request w) = trace w ++ events1 ++ [EvNodeDo request] ++ events3 /\
    ~ In EvStack events1 /\
    (existsb is_emission events1 = false -> existsb is_rendering events1 = false) /\
    (existsb is_emission events3 = false -> existsb is_rendering events3 = false) /\
    (In EvStack events3 ->
     (ans_err a <> None \/
      exists r, ans_response a = Some r /\ error_status (StatusCode r) = true) /\
     exists msg s, In (EvLog LogError msg) events3 /\ In (StackBytes s) msg).
Proof.
  destruct (Do_spec p request w) as (h1 & events1 & Hh1 & Hev1 & Hcases).
  cbv zeta in Hcases.
  assert (H1 : ~ In EvStack events1 /\
               (existsb is_emission events1 = false -> existsb is_rendering events1 = false)).
  { inversion Hev1; subst; cbn; split; try (intuition discriminate); auto. }
  destruct H1 as [Hstack1 Hquiet1]. unfold trace_of.
  destruct Hcases as [(_ & _ & w' & E & Ht)|
                      (severity & logMsg & td & w2 & w' & events3 & Hc & _ & E & _ & Ht & Hev3)].
  - exists h1, events1, []. rewrite E; cbn [outcome_world].
    split; [exact Hh1|]. split; [exact Ht|]. split; [exact Hstack1|].
    split; [exact Hquiet1|]. split; [reflexivity|]. intros [].
  - exists h1, events1, events3. rewrite E; cbn [outcome_world].
    split; [exact Hh1|]. split; [exact Ht|]. split; [exact Hstack1|].
    split; [exact Hquiet1|].
    apply classify_try_logMsg in Hc.
    inversion Hev3; subst; cbn; (split; [try discriminate; auto|]).
    + intros [H|[]]; discriminate.
    + intros [H|[H|[H|[]]]]; discriminate.
    + intros [H|[H|[H|[H|[]]]]]; discriminate.
    + destruct Hc as [Hr ->]. intros _. split; [right; exact Hr|].
      eexists _, _. split; [right; right; right; right; left; reflexivity|eassumption].
    + destruct Hc as [He ->]. intros _. split; [left; exact He|].
      eexists _, _. split; [right; right; right; right; left; reflexivity|eassumption].
Qed.

Lemma stack_only_for_logged_errors_witness :
  exists h1 events1 events3,
    heap_extends (heap (world1 "comp=list" (fun n => Z.of_nat n))) h1 /\
    let a := node_Do failing_node 0 h1 in
    trace_of (Do (New (NewRequestLogPolicyFactory (mkRequestLogOptions 0%Z)) failing_node)
                 0 (world1 "comp=list" (fun n => Z.of_nat n)))
    = [] ++ events1 ++ [EvNodeDo 0] ++ events3 /\
    ~ In EvStack events1 /\
    (existsb is_emission events1 = false -> existsb is_rendering events1 = false) /\
    (existsb is_emission events3 = false -> existsb is_rendering events3 = false) /\
    (In EvStack events3 ->
     (ans_err a <> None \/
      exists r, ans_response a = Some r /\ error_status (StatusCode r) = true) /\
     exists msg s, In (EvLog LogError msg) events3 /\ In (StackBytes s) msg).
Proof.
  apply (stack_only_for_logged_errors
           (New (NewRequestLogPolicyFactory (mkRequestLogOptions 0%Z)) failing_node)
           0 (world1 "comp=list" (fun n => Z.of_nat n))).
Defined.

End Policy.

(** ** The copy made for the log *)
Module LoggedCopy.
Import UrlDefs UrlFacts PolicyDefs PolicyFacts RecordDefs.
Local Open Scope list_scope.

Lemma URL_eta u : mkURL (Scheme u) (Host u) (Path u) (RawQuery u) = u.
Proof. destruct u. reflexivity. Qed.

(** What [prepareRequestForLogging] returns, and the store it leaves. *)
Lemma prepareRequestForLogging_dump request w :
  exists req h',
    prepareRequestForLogging request w = Returns req (after w h' []) /\
    heap_extends (heap w) h' /\
    dump_request h' req = logged_dump (heap w) request.
Proof.
  unfold prepareRequestForLogging, bind, get_heap, logged_dump, logged_query.
  destruct (redactSigQueryParam _) as [[] rawQuery] eqn:E; cbn [fst snd].
  - exists (n_requests (heap w)). eexists. split; [|split].
    + unfold Copy, set_RawQuery, bind, get_heap, put_heap, ret, after; simpl.
      rewrite Nat.eqb_refl; simpl. rewrite app_nil_r. reflexivity.
    + unfold heap_extends; simpl. split; [lia|]. split; [lia|]. split.
      * intros i Hi. destruct (Nat.eqb_spec i (n_requests (heap w))); [lia|reflexivity].
      * intros i Hi. destruct (Nat.eqb_spec i (n_urls (heap w))); [lia|reflexivity].
    + unfold dump_request; simpl. rewrite !Nat.eqb_refl; simpl. reflexivity.
  - exists request, (heap w). unfold ret. rewrite after_nothing.
    split; [reflexivity|]. split; [apply heap_extends_refl|].
    unfold dump_request. rewrite URL_eta. reflexivity.
Qed.

Lemma logged_dump_shows h request : shows (logged_dump h request) h request.
Proof. unfold shows, logged_dump, live_query. cbn. auto. Qed.

(** X1: when the signature is found in the ASCII query of a request,
    the request for the log is a new object with a new URL object: it
    shows the method, scheme, host and path of the caller's request with
    the query replaced by the redacted one, and every object the store
    had is as it was. *)
Theorem logged_copy_is_fresh_and_redacted request w :
  is_ascii (live_query (heap w) request) = true ->
  fst (redactSigQueryParam (live_query (heap w) request)) = true ->
  exists h',
    prepareRequestForLogging request w = Returns (n_requests (heap w)) (after w h' []) /\
    n_requests h' = S (n_requests (heap w)) /\
    n_urls h' = S (n_urls (heap w)) /\
    URLptr (requests h' (n_requests (heap w))) = n_urls (heap w) /\
    heap_extends (heap w) h' /\
    dump_method (dump_request h' (n_requests (heap w))) = Method (requests (heap w) request) /\
    RawQuery (dump_url (dump_request h' (n_requests (heap w))))
    = snd (redactSigQueryParam (live_query (heap w) request)) /\
    Scheme (dump_url (dump_request h' (n_requests (heap w))))
    = Scheme (urls (heap w) (URLptr (requests (heap w) request))) /\
    Host (dump_url (dump_request h' (n_requests (heap w))))
    = Host (urls (heap w) (URLptr (requests (heap w) request))) /\
    Path (dump_url (dump_request h' (n_requests (heap w))))
    = Path (urls (heap w) (URLptr (requests (heap w) request))).
Proof.
  unfold live_query. intros _ Hfound.
  unfold prepareRequestForLogging, bind, get_heap.
  destruct (redactSigQueryParam _) as [found rawQuery] eqn:E; cbn [fst snd] in *.
  subst found. eexists. split.
  - unfold Copy, set_RawQuery, bind, get_heap, put_heap, ret, after; simpl.
    rewrite Nat.eqb_refl; simpl. rewrite app_nil_r. reflexivity.
  - cbn. rewrite !Nat.eqb_refl. cbn.
    repeat (split; [reflexivity|]).
    split; [|repeat (split; [reflexivity|]); reflexivity].
    unfold heap_extends; simpl. split; [lia|]. split; [lia|]. split.
    + intros i Hi. destruct (Nat.eqb_spec i (n_requests (heap w))); [lia|reflexivity].
    + intros i Hi. destruct (Nat.eqb_spec i (n_urls (heap w))); [lia|reflexivity].
Qed.

Lemma logged_copy_is_fresh_and_redacted_witness :
  exists h',
    prepareRequestForLogging 0 (world1 "comp=list&sig=AbC" (fun n => Z.of_nat n))
    = Returns 1 (after (world1 "comp=list&sig=AbC" (fun n => Z.of_nat n)) h' []) /\
    RawQuery (dump_url (dump_request h' 1)) = "comp=list&sig=REDACTED" /\
    heap_extends (heap1 "comp=list&sig=AbC") h'.
Proof.
  destruct (logged_copy_is_fresh_and_redacted 0 (world1 "comp=list&sig=AbC" (fun n => Z.of_nat n)))
    as (h' & E & _ & _ & _ & Hh & _ & Hq & _).
  - vm_compute. reflexivity.
  - vm_compute. reflexivity.
  - exists h'. split; [exact E|]. split; [|exact Hh].
    etransitivity; [exact Hq|]. vm_compute. reflexivity.
Defined.

(** X3: [stack] returns the stack text in full, however long it is: the
    doubled buffer outgrows the text before the loop could give up. *)
Theorem stack_returns_the_whole_text w :
  exists w',
    stack w = Returns (goroutine_stack w) w' /\
    trace w' = trace w ++ [EvStack] /\
    heap w' = heap w.
Proof.
  exists (after w (heap w) [EvStack]).
  split; [|split; reflexivity].
  unfold stack, bind, emit, after; cbn.
  rewrite stack_loop_whole; [reflexivity|].
  assert (String.length (goroutine_stack w) < 2 ^ String.length (goroutine_stack w))
    by (apply Nat.pow_gt_lin_r; lia).
  lia.
Qed.

End LoggedCopy.

(** ** The records that [Do] writes *)
Module Records.
Import PolicyDefs PolicyFacts RecordDefs LoggedCopy.
Local Open Scope list_scope.

Lemma log_outgoing_rejected p request w :
  node_ShouldLog (node p) LogInfo = false ->
  log_outgoing p request w = Returns tt (after w (heap w) [EvShouldLog LogInfo]).
Proof.
  intros H. unfold log_outgoing, ShouldLog. unfold bind at 1 2. unfold emit, ret.
  rewrite H. reflexivity.
Qed.

Lemma log_outgoing_accepted p request w :
  node_ShouldLog (node p) LogInfo = true ->
  exists h' req,
    log_outgoing p request w
    = Returns tt (after w h'
        [EvShouldLog LogInfo; EvWriteRequest req;
         EvLog LogInfo [OutgoingRequestLine (try p);
                        WrittenRequest (logged_dump (heap w) request)]]) /\
    heap_extends (heap w) h'.
Proof.
  intros H. unfold log_outgoing, ShouldLog. unfold bind at 1 2. unfold emit, ret.
  fold (after w (heap w) [EvShouldLog LogInfo]). rewrite H.
  destruct (prepareRequestForLogging_dump request (after w (heap w) [EvShouldLog LogInfo]))
    as (req & h' & E & Hh & Hd).
  unfold bind at 1. rewrite E, after_after.
  exists h', req. split; [|exact Hh].
  unfold WriteRequest, Log, bind, emit, get_heap, ret, after; simpl.
  rewrite <- !app_assoc; simpl. rewrite Hd. reflexivity.
Qed.

Lemma log_outcome_rejected p request response err tryDuration opDuration severity logMsg w :
  node_ShouldLog (node p) severity = false ->
  log_outcome p request response err tryDuration opDuration severity logMsg false w
  = Returns tt (after w (heap w) [EvShouldLog severity]).
Proof.
  intros H. unfold log_outcome, ShouldLog. unfold bind at 1 2. unfold emit, ret.
  rewrite H. reflexivity.
Qed.

Lemma stack_loop_text text : stack_loop (String.length text) 1024 text = text.
Proof.
  apply stack_loop_whole.
  assert (String.length text < 2 ^ String.length text) by (apply Nat.pow_gt_lin_r; lia).
  lia.
Qed.

Lemma log_outcome_accepted p request response err tryDuration opDuration severity logMsg w :
  logMsg = MsgNetworkError \/ response <> None ->
  node_ShouldLog (node p) severity = true ->
  exists h' req,
    log_outcome p request response err tryDuration opDuration severity logMsg false w
    = Returns tt (after w h'
        (outcome_calls severity logMsg req
           (outcome_message p tryDuration opDuration logMsg response err
              (logged_dump (heap w) request) (goroutine_stack w)))) /\
    heap_extends (heap w) h'.
Proof.
  intros Hresp H.
  unfold log_outcome, ShouldLog. unfold bind at 1 2. unfold emit, ret.
  fold (after w (heap w) [EvShouldLog severity]). rewrite H. cbn [orb].
  destruct (prepareRequestForLogging_dump request (after w (heap w) [EvShouldLog severity]))
    as (req & h' & E & Hh & Hd).
  cbn [heap after] in Hd.
  exists h', req. split; [|exact Hh].
  destruct logMsg; unfold run_logMsg; unfold bind at 1 2; rewrite E, after_after;
    try (destruct response as [r|]; [|destruct Hresp; congruence]);
    unfold WriteRequest, WriteRequestWithResponse, Log, ForceLog, stack, response_Response,
      bind, emit, get_heap, ret, after; simpl;
    rewrite <- ?app_assoc; simpl; rewrite ?stack_loop_text, Hd; reflexivity.
Qed.

Lemma classify_try_classification p tryDuration response err w :
  classify_try p tryDuration response err w
  = match classification p tryDuration response err with
    | Some (severity, logMsg) => Returns (severity, logMsg, false) w
    | None => Panics w
    end.
Proof.
  unfold classification. destruct err as [e|]; [apply classify_try_network_error|].
  destruct response as [r|]; [|apply classify_try_nil].
  rewrite classify_try_response.
  destruct (error_status _); [|destruct (over_threshold _ _)]; reflexivity.
Qed.

Lemma classification_response p tryDuration response err severity logMsg :
  classification p tryDuration response err = Some (severity, logMsg) ->
  logMsg = MsgNetworkError \/ response <> None.
Proof.
  unfold classification. destruct err as [e|]; [intros [= _ <-]; auto|].
  destruct response as [r|]; [|discriminate]. intros _. right. discriminate.
Qed.

Lemma begin_try_world p w :
  snd (begin_try p w)
  = mkWorld (heap w) (clock w) (try_start_tick p w) (goroutine_stack w) (trace w).
Proof.
  unfold begin_try, try_start_tick; cbn [try node o operationStart].
  destruct (wrap_int32 (try p + 1) =? 1)%Z; [reflexivity|]. destruct w. reflexivity.
Qed.

Lemma begin_try_policy p w :
  node (fst (begin_try p w)) = node p /\
  o (fst (begin_try p w)) = o p /\
  try (fst (begin_try p w)) = wrap_int32 (try p + 1).
Proof. destruct (begin_try_spec p w) as (H1 & H2 & H3 & _). auto. Qed.

Lemma bind_run {A B} (m : M A) (f : A -> M B) w :
  bind m f w = match m w with
               | Returns a w' => f a w'
               | Panics w' => Panics w'
               end.
Proof. reflexivity. Qed.

(** One call of [Do], record by record. *)
Lemma Do_records p request w :
  exists h1 events1,
    heap_extends (heap w) h1 /\
    (if node_ShouldLog (node p) LogInfo
     then exists req,
       events1 = [EvShouldLog LogInfo; EvWriteRequest req;
                  EvLog LogInfo [OutgoingRequestLine (wrap_int32 (try p + 1));
                                 WrittenRequest (logged_dump (heap w) request)]]
     else events1 = [EvShouldLog LogInfo] /\ h1 = heap w) /\
    let a := node_Do (node p) request h1 in
    match classification (fst (begin_try p w)) (try_duration p w)
            (ans_response a) (ans_err a) with
    | None =>
        snd (Do p request w)
        = Panics (mkWorld (ans_heap a) (clock w) (S (S (try_start_tick p w)))
                          (goroutine_stack w)
                          (trace w ++ events1 ++ [EvNodeDo request]))
    | Some (severity, logMsg) =>
        exists h3 events3,
          snd (Do p request w)
          = Returns (ans_response a, ans_err a)
              (mkWorld h3 (clock w) (S (S (try_start_tick p w))) (goroutine_stack w)
                       (trace w ++ events1 ++ [EvNodeDo request] ++ events3)) /\
          heap_extends (ans_heap a) h3 /\
          (if node_ShouldLog (node p) severity
           then exists req,
             events3 = outcome_calls severity logMsg req
                         (outcome_message (fst (begin_try p w)) (try_duration p w)
                            (op_duration p w) logMsg (ans_response a) (ans_err a)
                            (logged_dump (ans_heap a) request) (goroutine_stack w))
           else events3 = [EvShouldLog severity] /\ h3 = ans_heap a)
    end.
Proof.
  rewrite Do_eq. cbn [snd].
  destruct (begin_try_policy p w) as (Hn & _ & Ht).
  set (p' := fst (begin_try p w)) in *.
  rewrite begin_try_world.
  set (wb := mkWorld (heap w) (clock w) (try_start_tick p w) (goroutine_stack w) (trace w)).
  assert (Hout : exists h1 events1,
            log_outgoing p' request wb = Returns tt (after wb h1 events1) /\
            heap_extends (heap w) h1 /\
            (if node_ShouldLog (node p) LogInfo
             then exists req,
               events1 = [EvShouldLog LogInfo; EvWriteRequest req;
                          EvLog LogInfo [OutgoingRequestLine (wrap_int32 (try p + 1));
                                         WrittenRequest (logged_dump (heap w) request)]]
             else events1 = [EvShouldLog LogInfo] /\ h1 = heap w)).
  { rewrite <- Hn, <- Ht.
    destruct (node_ShouldLog (node p') LogInfo) eqn:Hacc.
    - destruct (log_outgoing_accepted p' request wb Hacc) as (h1 & req & E & Hh).
      exists h1. eexists. split; [exact E|]. split; [exact Hh|]. exists req. reflexivity.
    - exists (heap w). eexists.
      split; [rewrite (log_outgoing_rejected p' request wb Hacc); reflexivity|].
      split; [apply heap_extends_refl|]. auto. }
  destruct Hout as (h1 & events1 & E1 & Hh1 & Hev1).
  exists h1, events1. split; [exact Hh1|]. split; [exact Hev1|].
  cbv zeta. set (a := node_Do (node p) request h1).
  set (w2 := mkWorld (ans_heap a) (clock w) (S (S (try_start_tick p w))) (goroutine_stack w)
                     (trace w ++ events1 ++ [EvNodeDo request])).
  assert (Hrun : try_request p' request wb
    = (let* '(severity, logMsg, forceLog) :=
         classify_try p' (try_duration p w) (ans_response a) (ans_err a) in
       do* log_outcome p' request (ans_response a) (ans_err a) (try_duration p w)
             (op_duration p w) severity logMsg forceLog in
       ret (ans_response a, ans_err a)) w2).
  { unfold try_request. unfold bind at 1. rewrite E1.
    unfold NodeDo, Now, bind, emit, get_heap, put_heap, ret, after; simpl.
    subst w2 a. rewrite Hn. unfold try_duration, op_duration. fold p'.
    rewrite <- !app_assoc. reflexivity. }
  rewrite Hrun. clear Hrun. rewrite bind_run, classify_try_classification.
  destruct (classification p' (try_duration p w) (ans_response a) (ans_err a))
    as [[severity logMsg]|] eqn:Hc; [|reflexivity].
  rewrite <- Hn. destruct (node_ShouldLog (node p') severity) eqn:Hacc.
  - destruct (log_outcome_accepted p' request (ans_response a) (ans_err a)
                (try_duration p w) (op_duration p w) severity logMsg w2
                (classification_response _ _ _ _ _ _ Hc) Hacc) as (h3 & req & E3 & Hh3).
    exists h3. eexists. split; [|split; [exact Hh3|exists req; reflexivity]].
    rewrite bind_run, E3. unfold ret, after, w2; cbn.
    rewrite <- !app_assoc. reflexivity.
  - exists (ans_heap a). eexists.
    split; [|split; [apply heap_extends_refl|split; reflexivity]].
    rewrite bind_run, log_outcome_rejected by exact Hacc.
    unfold ret, after, w2; cbn. rewrite <- !app_assoc. reflexivity.
Qed.

End Records.

(** ** What a call of [Do] shows to its surroundings *)
Module DoProperties.
Import PolicyDefs PolicyFacts RecordDefs LoggedCopy Records.
Local Open Scope list_scope.

(** The severity chosen is the one of the stated order. *)
Lemma classification_severity p tryDuration response err severity logMsg :
  classification p tryDuration response err = Some (severity, logMsg) ->
  severity
  = fst (stated_classification
           (match err with Some _ => true | None => false end)
           (match response with Some r => StatusCode r | None => 0%Z end)
           tryDuration (LogWarningIfTryOverThreshold (o p))).
Proof.
  intros Hc.
  apply (Policy.classify_try_severity p tryDuration response err
           (world1 "" (fun _ => 0%Z)) severity logMsg false (world1 "" (fun _ => 0%Z))).
  rewrite classify_try_classification, Hc. reflexivity.
Qed.

Lemma classification_some p tryDuration response err :
  response <> None \/ err <> None ->
  exists severity logMsg,
    classification p tryDuration response err = Some (severity, logMsg).
Proof.
  unfold classification. intros H.
  destruct err as [e|]; [eauto|].
  destruct response as [r|].
  - destruct (error_status (StatusCode r)); [|destruct (over_threshold p tryDuration)]; eauto.
  - destruct H as [H|H]; exfalso; apply H; reflexivity.
Qed.

Lemma live_query_extends h h' request :
  heap_extends h h' ->
  request < n_requests h ->
  URLptr (requests h request) < n_urls h ->
  live_query h' request = live_query h request.
Proof.
  intros (_ & _ & Hr & Hu) H1 H2. unfold live_query.
  rewrite (Hr _ H1), (Hu _ H2). reflexivity.
Qed.

(** X4: when the filter accepts level Info, [Do] writes the outgoing record
    before it calls the next stage: the record holds the number of the
    try just counted and the request, shown with its method, scheme,
    host and path and, for an ASCII query, with the redacted query in
    place of one in which the signature is found. *)
Theorem outgoing_record_precedes_the_call p request w :
  node_ShouldLog (node p) LogInfo = true ->
  is_ascii (live_query (heap w) request) = true ->
  exists req d rest,
    shows d (heap w) request /\
    trace_of (Do p request w)
    = trace w ++
      [EvShouldLog LogInfo; EvWriteRequest req;
       EvLog LogInfo [OutgoingRequestLine (wrap_int32 (try p + 1)); WrittenRequest d];
       EvNodeDo request] ++ rest.
Proof.
  intros Hacc _. unfold trace_of.
  destruct (Do_records p request w) as (h1 & events1 & _ & Hev1 & Hcases).
  rewrite Hacc in Hev1. destruct Hev1 as (req & ->). cbv zeta in Hcases.
  destruct (classification _ _ _ _) as [[severity logMsg]|].
  - destruct Hcases as (h3 & events3 & E & _). rewrite E. cbn [outcome_world trace].
    exists req, (logged_dump (heap w) request), events3.
    split; [apply logged_dump_shows|reflexivity].
  - rewrite Hcases. cbn [outcome_world trace].
    exists req, (logged_dump (heap w) request), [].
    split; [apply logged_dump_shows|reflexivity].
Qed.

Lemma outgoing_record_precedes_the_call_witness :
  exists req d rest,
    shows d (heap1 "comp=list&sig=AbC") 0 /\
    trace_of (Do (New (NewRequestLogPolicyFactory (mkRequestLogOptions 0%Z)) accepting_node)
                 0 (world1 "comp=list&sig=AbC" (fun n => Z.of_nat n)))
    = [] ++
      [EvShouldLog LogInfo; EvWriteRequest req;
       EvLog LogInfo [OutgoingRequestLine (wrap_int32 (0 + 1)); WrittenRequest d];
       EvNodeDo 0] ++ rest.
Proof.
  apply (outgoing_record_precedes_the_call
           (New (NewRequestLogPolicyFactory (mkRequestLogOptions 0%Z)) accepting_node)
           0 (world1 "comp=list&sig=AbC" (fun n => Z.of_nat n))).
  - reflexivity.
  - vm_compute. reflexivity.
Defined.

(** X5: when the next stage gives a response or an error, the first thing
    [Do] does after the call is to ask the filter about one severity, and
    that severity follows the order: transport error, status 5xx, status
    4xx other than 404, 409, 412 and 416, try longer than a positive
    threshold, and Info otherwise; the duration is the difference of the
    two clock readings around the call. *)
Theorem severity_asked_after_the_call p request w :
  exists h1 events1,
    heap_extends (heap w) h1 /\
    let a := node_Do (node p) request h1 in
    (ans_response a <> None \/ ans_err a <> None ->
     exists rest,
       trace_of (Do p request w)
       = trace w ++ events1 ++
         [EvNodeDo request;
          EvShouldLog
            (fst (stated_classification
                    (match ans_err a with Some _ => true | None => false end)
                    (match ans_response a with Some r => StatusCode r | None => 0%Z end)
                    (try_duration p w) (LogWarningIfTryOverThreshold (o p))))] ++ rest).
Proof.
  unfold trace_of.
  destruct (Do_records p request w) as (h1 & events1 & Hh1 & _ & Hcases).
  exists h1, events1. split; [exact Hh1|]. cbv zeta in Hcases |- *. intros Hsome.
  destruct (classification_some (fst (begin_try p w)) (try_duration p w) _ _ Hsome)
    as (severity & logMsg & Hc).
  rewrite Hc in Hcases. destruct Hcases as (h3 & events3 & E & _ & Hev3).
  rewrite E. cbn [outcome_world trace].
  apply classification_severity in Hc.
  destruct (begin_try_policy p w) as (_ & Ho & _). rewrite Ho in Hc. rewrite <- Hc.
  destruct (node_ShouldLog (node p) severity).
  - destruct Hev3 as (req & ->). unfold outcome_calls. eexists. reflexivity.
  - destruct Hev3 as [-> _]. exists []. reflexivity.
Qed.

Lemma severity_asked_after_the_call_witness :
  exists h1 events1,
    heap_extends (heap (world1 "comp=list" (fun n => Z.of_nat n))) h1 /\
    let a := node_Do quiet_node 0 h1 in
    (ans_response a <> None \/ ans_err a <> None ->
     exists rest,
       trace_of (Do (New (NewRequestLogPolicyFactory (mkRequestLogOptions 0%Z)) quiet_node)
                    0 (world1 "comp=list" (fun n => Z.of_nat n)))
       = [] ++ events1 ++
         [EvNodeDo 0;
          EvShouldLog
            (fst (stated_classification
                    (match ans_err a with Some _ => true | None => false end)
                    (match ans_response a with Some r => StatusCode r | None => 0%Z end)
                    (try_duration (New (NewRequestLogPolicyFactory (mkRequestLogOptions 0%Z))
                                       quiet_node)
                                  (world1 "comp=list" (fun n => Z.of_nat n)))
                    (3 * Second)%Z))] ++ rest).
Proof.
  apply (severity_asked_after_the_call
           (New (NewRequestLogPolicyFactory (mkRequestLogOptions 0%Z)) quiet_node)
           0 (world1 "comp=list" (fun n => Z.of_nat n))).
Defined.

(** X6: [Do] never puts a record on the forced channel alone: every call
    of [pipeline.ForceLog] is followed at once by the call of [Log] with
    the same level and the same text, and the filter accepted that
    level. *)
Theorem forced_record_is_logged_too p request w level msg :
  exists events,
    trace_of (Do p request w) = trace w ++ events /\
    (In (EvForceLog level msg) events ->
     node_ShouldLog (node p) level = true /\
     exists before, events = before ++ [EvForceLog level msg; EvLog level msg]).
Proof.
  unfold trace_of.
  destruct (Do_records p request w) as (h1 & events1 & _ & Hev1 & Hcases).
  cbv zeta in Hcases.
  assert (Hno1 : ~ In (EvForceLog level msg) events1).
  { destruct (node_ShouldLog (node p) LogInfo).
    - destruct Hev1 as (req & ->). cbn. intuition discriminate.
    - destruct Hev1 as [-> _]. cbn. intuition discriminate. }
  destruct (classification _ _ _ _) as [[severity logMsg]|].
  - destruct Hcases as (h3 & events3 & E & _ & Hev3). rewrite E.
    cbn [outcome_world trace]. eexists. split; [reflexivity|].
    rewrite !in_app_iff. intros [H|[H|H]]; [contradiction|destruct H as [H|[]]; discriminate|].
    destruct (node_ShouldLog (node p) severity) eqn:Hacc.
    + destruct Hev3 as (req & ->).
      destruct logMsg; cbn in H;
        repeat (destruct H as [H|H]; [try discriminate|]); try contradiction;
        injection H as <- <-; (split; [exact Hacc|]).
      * exists (events1 ++ [EvNodeDo request; EvShouldLog severity;
                            EvWriteRequestWithResponse req]).
        rewrite <- app_assoc. reflexivity.
      * exists (events1 ++ [EvNodeDo request; EvShouldLog severity;
                            EvWriteRequestWithResponse req; EvStack]).
        rewrite <- app_assoc. reflexivity.
      * exists (events1 ++ [EvNodeDo request; EvShouldLog severity;
                            EvWriteRequest req; EvStack]).
        rewrite <- app_assoc. reflexivity.
    + destruct Hev3 as [-> _]. cbn in H. destruct H as [H|[]]. discriminate.
  - rewrite Hcases. cbn [outcome_world trace]. eexists. split; [reflexivity|].
    rewrite !in_app_iff. intros [H|H]; [contradiction|destruct H as [H|[]]; discriminate].
Qed.

Lemma forced_record_is_logged_too_witness :
  exists level msg events,
    trace_of (Do (New (NewRequestLogPolicyFactory (mkRequestLogOptions 0%Z)) failing_node)
                 0 (world1 "comp=list" (fun n => Z.of_nat n)))
    = [] ++ events /\
    In (EvForceLog level msg) events /\
    node_ShouldLog failing_node level = true /\
    exists before, events = before ++ [EvForceLog level msg; EvLog level msg].
Proof.
  exists LogError.
  exists [RequestResponseLine 1 1%Z 2%Z; NetworkErrorLine (Some "connection reset");
          WrittenRequest (logged_dump (heap1 "comp=list") 0);
          StackBytes "goroutine 1 [running]:"].
  destruct (forced_record_is_logged_too
              (New (NewRequestLogPolicyFactory (mkRequestLogOptions 0%Z)) failing_node)
              0 (world1 "comp=list" (fun n => Z.of_nat n)) LogError
              [RequestResponseLine 1 1%Z 2%Z; NetworkErrorLine (Some "connection reset");
               WrittenRequest (logged_dump (heap1 "comp=list") 0);
               StackBytes "goroutine 1 [running]:"])
    as (events & E & H).
  exists events. split; [exact E|].
  assert (Hin : In (EvForceLog LogError
                      [RequestResponseLine 1 1%Z 2%Z; NetworkErrorLine (Some "connection reset");
                       WrittenRequest (logged_dump (heap1 "comp=list") 0);
                       StackBytes "goroutine 1 [running]:"]) events).
  { assert (E' : trace_of (Do (New (NewRequestLogPolicyFactory (mkRequestLogOptions 0%Z))
                                   failing_node)
                              0 (world1 "comp=list" (fun n => Z.of_nat n))) = events)
      by exact E.
    rewrite <- E'. vm_compute. do 7 right. left. reflexivity. }
  split; [exact Hin|]. exact (H Hin).
Defined.

(** X7: when the next stage gives neither a response nor an error, [Do]
    panics where it reads the status code: the try was counted and the
    outgoing record written, and nothing is asked, rendered or logged
    after the call. *)
Theorem Do_panics_without_response_or_error p request w :
  exists h1 events1,
    heap_extends (heap w) h1 /\
    let a := node_Do (node p) request h1 in
    (ans_response a = None -> ans_err a = None ->
     try (fst (Do p request w)) = wrap_int32 (try p + 1) /\
     exists w',
       snd (Do p request w) = Panics w' /\
       heap w' = ans_heap a /\
       trace w' = trace w ++ events1 ++ [EvNodeDo request] /\
       existsb is_emission events1 = node_ShouldLog (node p) LogInfo).
Proof.
  destruct (Do_records p request w) as (h1 & events1 & Hh1 & Hev1 & Hcases).
  exists h1, events1. split; [exact Hh1|]. cbv zeta in Hcases |- *.
  intros Hr He. rewrite Hr, He in Hcases. cbn [classification] in Hcases.
  split.
  - rewrite Do_eq. cbn [fst]. apply begin_try_policy.
  - eexists. split; [exact Hcases|]. split; [reflexivity|]. split; [reflexivity|].
    destruct (node_ShouldLog (node p) LogInfo).
    + destruct Hev1 as (req & ->). reflexivity.
    + destruct Hev1 as [-> _]. reflexivity.
Qed.

Lemma Do_panics_without_response_or_error_witness :
  exists w',
    snd (Do (New (NewRequestLogPolicyFactory (mkRequestLogOptions 0%Z))
                 (mkNode (fun _ => true) (stage None None)))
            0 (world1 "comp=list" (fun n => Z.of_nat n)))
    = Panics w'.
Proof.
  destruct (Do_panics_without_response_or_error
              (New (NewRequestLogPolicyFactory (mkRequestLogOptions 0%Z))
                   (mkNode (fun _ => true) (stage None None)))
              0 (world1 "comp=list" (fun n => Z.of_nat n)))
    as (h1 & events1 & _ & H).
  destruct (H eq_refl eq_refl) as (_ & w' & E & _).
  exists w'. exact E.
Defined.

(** X8: under a filter that rejects every level, [Do] asks the filter
    twice and calls the next stage, and that is all: the next stage gets
    the store as the caller left it, no copy is made, nothing is
    rendered, and the store after the call is the one the next stage
    left. *)
Theorem silent_filter_costs_two_questions p request w :
  (forall level, node_ShouldLog (node p) level = false) ->
  let a := node_Do (node p) request (heap w) in
  ans_response a <> None \/ ans_err a <> None ->
  exists severity,
    snd (Do p request w)
    = Returns (ans_response a, ans_err a)
        (mkWorld (ans_heap a) (clock w) (S (S (try_start_tick p w))) (goroutine_stack w)
                 (trace w ++ [EvShouldLog LogInfo; EvNodeDo request; EvShouldLog severity])).
Proof.
  intros Hsilent a Hsome.
  destruct (Do_records p request w) as (h1 & events1 & _ & Hev1 & Hcases).
  rewrite Hsilent in Hev1. destruct Hev1 as [-> ->].
  cbv zeta in Hcases. fold a in Hcases.
  destruct (classification_some (fst (begin_try p w)) (try_duration p w) _ _ Hsome)
    as (severity & logMsg & Hc).
  rewrite Hc in Hcases. destruct Hcases as (h3 & events3 & E & _ & Hev3).
  rewrite Hsilent in Hev3. destruct Hev3 as [-> ->].
  exists severity. rewrite E. reflexivity.
Qed.

Lemma silent_filter_costs_two_questions_witness :
  exists severity,
    snd (Do (New (NewRequestLogPolicyFactory (mkRequestLogOptions 0%Z)) quiet_node)
            0 (world1 "comp=list&sig=AbC" (fun n => Z.of_nat n)))
    = Returns (None, Some "connection reset")
        (mkWorld (heap1 "comp=list&sig=AbC") (fun n => Z.of_nat n) 3
                 "goroutine 1 [running]:"
                 [EvShouldLog LogInfo; EvNodeDo 0; EvShouldLog severity]).
Proof.
  apply (silent_filter_costs_two_questions
           (New (NewRequestLogPolicyFactory (mkRequestLogOptions 0%Z)) quiet_node)
           0 (world1 "comp=list&sig=AbC" (fun n => Z.of_nat n))).
  - reflexivity.
  - right. discriminate.
Defined.

Lemma over_threshold_begin_try p w tryDuration :
  over_threshold (fst (begin_try p w)) tryDuration = over_threshold p tryDuration.
Proof.
  unfold over_threshold. destruct (begin_try_policy p w) as (_ & -> & _). reflexivity.
Qed.

Lemma outcome_message_begin_try p w tryDuration opDuration logMsg response err d text :
  outcome_message (fst (begin_try p w)) tryDuration opDuration logMsg response err d text
  = outcome_message (mkPolicy (node p) (o p) (wrap_int32 (try p + 1)) (operationStart p))
      tryDuration opDuration logMsg response err d text.
Proof.
  unfold outcome_message. destruct (begin_try_policy p w) as (_ & -> & ->). reflexivity.
Qed.

(** X9: the two error records.  When the filter accepts level Error and
    the query that the next stage left is ASCII, a try that ends in a
    transport error is written, to the forced channel and then to the
    filtered one, as: the try number and the two durations, the error,
    the request (method, scheme, host, path, and the query redacted when
    the signature is found in it), and the whole stack text; a try that
    ends in a response with an error status is written the same way with
    the response after the request. *)
Theorem error_records p request w :
  node_ShouldLog (node p) LogError = true ->
  exists h1 events1,
    heap_extends (heap w) h1 /\
    let a := node_Do (node p) request h1 in
    let head := RequestResponseLine (wrap_int32 (try p + 1))
                  (try_duration p w) (op_duration p w) in
    (is_ascii (live_query (ans_heap a) request) = true ->
     exists d,
       shows d (ans_heap a) request /\
       (forall e, ans_err a = Some e ->
          exists req,
            trace_of (Do p request w)
            = trace w ++ events1 ++
              [EvNodeDo request; EvShouldLog LogError; EvWriteRequest req; EvStack;
               EvForceLog LogError
                 [head; NetworkErrorLine (Some e); WrittenRequest d;
                  StackBytes (goroutine_stack w)];
               EvLog LogError
                 [head; NetworkErrorLine (Some e); WrittenRequest d;
                  StackBytes (goroutine_stack w)]]) /\
       (forall r, ans_err a = None -> ans_response a = Some r ->
          error_status (StatusCode r) = true ->
          exists req,
            trace_of (Do p request w)
            = trace w ++ events1 ++
              [EvNodeDo request; EvShouldLog LogError; EvWriteRequestWithResponse req; EvStack;
               EvForceLog LogError
                 [head; OperationErrorLine; WrittenRequest d; WrittenResponse r;
                  StackBytes (goroutine_stack w)];
               EvLog LogError
                 [head; OperationErrorLine; WrittenRequest d; WrittenResponse r;
                  StackBytes (goroutine_stack w)]])).
Proof.
  intros Hacc. unfold trace_of.
  destruct (Do_records p request w) as (h1 & events1 & Hh1 & _ & Hcases).
  exists h1, events1. split; [exact Hh1|]. cbv zeta in Hcases |- *. intros _.
  exists (logged_dump (ans_heap (node_Do (node p) request h1)) request).
  split; [apply logged_dump_shows|]. split.
  - intros e He. rewrite He in Hcases. cbn [classification] in Hcases.
    destruct Hcases as (h3 & events3 & E & _ & Hev3). rewrite Hacc in Hev3.
    destruct Hev3 as (req & ->). exists req. rewrite E. cbn [outcome_world trace].
    rewrite outcome_message_begin_try. reflexivity.
  - intros r He Hr Hs. rewrite He, Hr in Hcases. cbn [classification] in Hcases.
    rewrite Hs in Hcases.
    destruct Hcases as (h3 & events3 & E & _ & Hev3). rewrite Hacc in Hev3.
    destruct Hev3 as (req & ->). exists req. rewrite E. cbn [outcome_world trace].
    rewrite outcome_message_begin_try. reflexivity.
Qed.

Lemma error_records_witness :
  (exists h1 d req events1,
     heap_extends (heap1 "comp=list&sig=AbC") h1 /\
     shows d h1 0 /\
     trace_of (Do (New (NewRequestLogPolicyFactory (mkRequestLogOptions 0%Z)) failing_node)
                  0 (world1 "comp=list&sig=AbC" (fun n => Z.of_nat n)))
     = events1 ++
       [EvNodeDo 0; EvShouldLog LogError; EvWriteRequest req; EvStack;
        EvForceLog LogError
          [RequestResponseLine 1%Z 1%Z 2%Z; NetworkErrorLine (Some "connection reset");
           WrittenRequest d; StackBytes "goroutine 1 [running]:"];
        EvLog LogError
          [RequestResponseLine 1%Z 1%Z 2%Z; NetworkErrorLine (Some "connection reset");
           WrittenRequest d; StackBytes "goroutine 1 [running]:"]]) /\
  (exists h1 d req events1,
     heap_extends (heap1 "comp=list&sig=AbC") h1 /\
     shows d h1 0 /\
     trace_of (Do (New (NewRequestLogPolicyFactory (mkRequestLogOptions 0%Z))
                       (mkNode (fun _ => true)
                               (stage (Some (mkResponse 500%Z "500 Internal Server Error")) None)))
                  0 (world1 "comp=list&sig=AbC" (fun n => Z.of_nat n)))
     = events1 ++
       [EvNodeDo 0; EvShouldLog LogError; EvWriteRequestWithResponse req; EvStack;
        EvForceLog LogError
          [RequestResponseLine 1%Z 1%Z 2%Z; OperationErrorLine; WrittenRequest d;
           WrittenResponse (mkResponse 500%Z "500 Internal Server Error");
           StackBytes "goroutine 1 [running]:"];
        EvLog LogError
          [RequestResponseLine 1%Z 1%Z 2%Z; OperationErrorLine; WrittenRequest d;
           WrittenResponse (mkResponse 500%Z "500 Internal Server Error");
           StackBytes "goroutine 1 [running]:"]]).
Proof.
  split.
  - destruct (error_records
                (New (NewRequestLogPolicyFactory (mkRequestLogOptions 0%Z)) failing_node)
                0 (world1 "comp=list&sig=AbC" (fun n => Z.of_nat n)) eq_refl)
      as (h1 & events1 & Hh & H).
    destruct H as (d & Hd & Hnet & _).
    { cbn [ans_heap node_Do failing_node stage node New].
      rewrite (live_query_extends _ _ 0 Hh); [reflexivity|cbn; lia|cbn; lia]. }
    destruct (Hnet "connection reset" eq_refl) as (req & E).
    exists h1, d, req, events1. split; [exact Hh|]. split; [exact Hd|exact E].
  - destruct (error_records
                (New (NewRequestLogPolicyFactory (mkRequestLogOptions 0%Z))
                     (mkNode (fun _ => true)
                             (stage (Some (mkResponse 500%Z "500 Internal Server Error")) None)))
                0 (world1 "comp=list&sig=AbC" (fun n => Z.of_nat n)) eq_refl)
      as (h1 & events1 & Hh & H).
    destruct H as (d & Hd & _ & Hstatus).
    { cbn [ans_heap node_Do stage node New].
      rewrite (live_query_extends _ _ 0 Hh); [reflexivity|cbn; lia|cbn; lia]. }
    destruct (Hstatus (mkResponse 500%Z "500 Internal Server Error") eq_refl eq_refl eq_refl)
      as (req & E).
    exists h1, d, req, events1. split; [exact Hh|]. split; [exact Hd|exact E].
Defined.

(** X10: the two records of a try that got a response without an error
    status, for an ASCII query.  When the try was not longer than a
    positive threshold and the filter accepts level Info, the record
    goes to the filtered channel only, without a stack: the try number
    and durations, the request (with the query redacted when the
    signature is found in it) and the response.  When the try was longer
    and the filter accepts level Warning, the record names the threshold
    and goes to the forced channel and then to the filtered one, again
    without a stack. *)
Theorem response_records p request w :
  exists h1 events1,
    heap_extends (heap w) h1 /\
    let a := node_Do (node p) request h1 in
    let head := RequestResponseLine (wrap_int32 (try p + 1))
                  (try_duration p w) (op_duration p w) in
    (is_ascii (live_query (ans_heap a) request) = true ->
     exists d,
       shows d (ans_heap a) request /\
       forall r, ans_err a = None -> ans_response a = Some r ->
         error_status (StatusCode r) = false ->
         (over_threshold p (try_duration p w) = false ->
          node_ShouldLog (node p) LogInfo = true ->
          exists req,
            trace_of (Do p request w)
            = trace w ++ events1 ++
              [EvNodeDo request; EvShouldLog LogInfo; EvWriteRequestWithResponse req;
               EvLog LogInfo
                 [head; SuccessfulOperationLine; WrittenRequest d; WrittenResponse r]]) /\
         (over_threshold p (try_duration p w) = true ->
          node_ShouldLog (node p) LogWarning = true ->
          exists req,
            trace_of (Do p request w)
            = trace w ++ events1 ++
              [EvNodeDo request; EvShouldLog LogWarning; EvWriteRequestWithResponse req;
               EvForceLog LogWarning
                 [head; SlowOperationLine (LogWarningIfTryOverThreshold (o p));
                  WrittenRequest d; WrittenResponse r];
               EvLog LogWarning
                 [head; SlowOperationLine (LogWarningIfTryOverThreshold (o p));
                  WrittenRequest d; WrittenResponse r]])).
Proof.
  unfold trace_of.
  destruct (Do_records p request w) as (h1 & events1 & Hh1 & _ & Hcases).
  exists h1, events1. split; [exact Hh1|]. cbv zeta in Hcases |- *. intros _.
  exists (logged_dump (ans_heap (node_Do (node p) request h1)) request).
  split; [apply logged_dump_shows|].
  intros r He Hr Hs. rewrite He, Hr in Hcases. cbn [classification] in Hcases.
  rewrite Hs, over_threshold_begin_try in Hcases. split.
  - intros Hover Hacc. rewrite Hover in Hcases.
    destruct Hcases as (h3 & events3 & E & _ & Hev3). rewrite Hacc in Hev3.
    destruct Hev3 as (req & ->). exists req. rewrite E. cbn [outcome_world trace].
    rewrite outcome_message_begin_try. reflexivity.
  - intros Hover Hacc. rewrite Hover in Hcases.
    destruct Hcases as (h3 & events3 & E & _ & Hev3). rewrite Hacc in Hev3.
    destruct Hev3 as (req & ->). exists req. rewrite E. cbn [outcome_world trace].
    rewrite outcome_message_begin_try. reflexivity.
Qed.

Lemma response_records_witness :
  (exists h1 d req events1,
     heap_extends (heap1 "comp=list&sig=AbC") h1 /\
     shows d h1 0 /\
     trace_of (Do (New (NewRequestLogPolicyFactory (mkRequestLogOptions 0%Z)) accepting_node)
                  0 (world1 "comp=list&sig=AbC" (fun n => Z.of_nat n)))
     = events1 ++
       [EvNodeDo 0; EvShouldLog LogInfo; EvWriteRequestWithResponse req;
        EvLog LogInfo
          [RequestResponseLine 1%Z 1%Z 2%Z; SuccessfulOperationLine;
           WrittenRequest d; WrittenResponse (mkResponse 200%Z "200 OK")]]) /\
  (exists h1 d req events1,
     heap_extends (heap1 "comp=list&sig=AbC") h1 /\
     shows d h1 0 /\
     trace_of (Do (New (NewRequestLogPolicyFactory (mkRequestLogOptions (2 * Second)%Z))
                       accepting_node)
                  0 (world1 "comp=list&sig=AbC" (fun n => (Z.of_nat n * 2500000000)%Z)))
     = events1 ++
       [EvNodeDo 0; EvShouldLog LogWarning; EvWriteRequestWithResponse req;
        EvForceLog LogWarning
          [RequestResponseLine 1%Z 2500000000%Z 5000000000%Z;
           SlowOperationLine (2 * Second)%Z;
           WrittenRequest d; WrittenResponse (mkResponse 200%Z "200 OK")];
        EvLog LogWarning
          [RequestResponseLine 1%Z 2500000000%Z 5000000000%Z;
           SlowOperationLine (2 * Second)%Z;
           WrittenRequest d; WrittenResponse (mkResponse 200%Z "200 OK")]]).
Proof.
  split.
  - destruct (response_records
                (New (NewRequestLogPolicyFactory (mkRequestLogOptions 0%Z)) accepting_node)
                0 (world1 "comp=list&sig=AbC" (fun n => Z.of_nat n)))
      as (h1 & events1 & Hh & H).
    destruct H as (d & Hd & H).
    { cbn [ans_heap node_Do accepting_node stage node New].
      rewrite (live_query_extends _ _ 0 Hh); [reflexivity|cbn; lia|cbn; lia]. }
    destruct (H (mkResponse 200%Z "200 OK") eq_refl eq_refl eq_refl) as [Hinfo _].
    destruct (Hinfo eq_refl eq_refl) as (req & E).
    exists h1, d, req, events1. split; [exact Hh|]. split; [exact Hd|exact E].
  - destruct (response_records
                (New (NewRequestLogPolicyFactory (mkRequestLogOptions (2 * Second)%Z))
                     accepting_node)
                0 (world1 "comp=list&sig=AbC" (fun n => (Z.of_nat n * 2500000000)%Z)))
      as (h1 & events1 & Hh & H).
    destruct H as (d & Hd & H).
    { cbn [ans_heap node_Do accepting_node stage node New].
      rewrite (live_query_extends _ _ 0 Hh); [reflexivity|cbn; lia|cbn; lia]. }
    destruct (H (mkResponse 200%Z "200 OK") eq_refl eq_refl eq_refl) as [_ Hslow].
    destruct (Hslow eq_refl eq_refl) as (req & E).
    exists h1, d, req, events1. split; [exact Hh|]. split; [exact Hd|exact E].
Defined.

Lemma Sub_between (t u1 u2 : Time) :
  (u2 <= u1)%Z -> (u1 <= t)%Z -> (0 <= Sub t u1 <= Sub t u2)%Z.
Proof.
  intros H1 H2. unfold Sub, maxDuration, minDuration.
  change (2 ^ 63)%Z with 9223372036854775808%Z.
  repeat match goal with
         | |- context [(?a <? ?b)%Z] => destruct (Z.ltb_spec a b)
         end; lia.
Qed.

Lemma classification_pairs p tryDuration response err severity logMsg :
  classification p tryDuration response err = Some (severity, logMsg) ->
  (severity = LogInfo /\ logMsg = MsgSuccessful) \/
  (severity = LogWarning /\ logMsg = MsgSlow) \/
  (severity = LogError /\ (logMsg = MsgOperationError \/ logMsg = MsgNetworkError)).
Proof.
  unfold classification. destruct err as [e|]; [intros [= <- <-]; auto|].
  destruct response as [r|]; [|discriminate].
  destruct (error_status _); [|destruct (over_threshold _ _)]; intros [= <- <-]; auto.
Qed.

(** X11: on the first try of a policy, with a clock that does not go back
    over the three readings, every outcome record that [Do] logs says
    try 1, a try duration that is not negative, and an operation
    duration that is at least the try duration: the operation starts
    before the outgoing record is written, the try after it. *)
Theorem first_try_durations p request w :
  wrap_int32 (try p + 1) = 1%Z ->
  (clock w (ticks w) <= clock w (S (ticks w)))%Z ->
  (clock w (S (ticks w)) <= clock w (S (S (ticks w))))%Z ->
  exists events,
    trace_of (Do p request w) = trace w ++ events /\
    forall level n tryDuration opDuration rest,
      In (EvLog level (RequestResponseLine n tryDuration opDuration :: rest)) events ->
      n = 1%Z /\ (0 <= tryDuration <= opDuration)%Z.
Proof.
  intros Hfirst Hc1 Hc2. unfold trace_of.
  assert (Hdur : (0 <= try_duration p w <= op_duration p w)%Z).
  { unfold try_duration, op_duration, try_start_tick. rewrite Hfirst. cbn [Z.eqb Pos.eqb].
    destruct (begin_try_spec p w) as (_ & _ & Ht & _ & _ & _ & Hop).
    cbv zeta in Ht, Hop. rewrite Ht, Hfirst in Hop. cbn [Z.eqb Pos.eqb] in Hop.
    destruct Hop as [-> _]. apply Sub_between; assumption. }
  destruct (Do_records p request w) as (h1 & events1 & _ & Hev1 & Hcases).
  cbv zeta in Hcases.
  assert (Hno1 : forall level n td od rest,
             ~ In (EvLog level (RequestResponseLine n td od :: rest)) events1).
  { intros level n td od rest. destruct (node_ShouldLog (node p) LogInfo).
    - destruct Hev1 as (req & ->). cbn. intuition discriminate.
    - destruct Hev1 as [-> _]. cbn. intuition discriminate. }
  destruct (classification _ _ _ _) as [[severity logMsg]|].
  - destruct Hcases as (h3 & events3 & E & _ & Hev3). rewrite E.
    cbn [outcome_world trace]. eexists. split; [reflexivity|].
    intros level n td od rest. rewrite !in_app_iff.
    intros [H|[H|H]]; [exfalso; exact (Hno1 _ _ _ _ _ H)|destruct H as [H|[]]; discriminate|].
    destruct (node_ShouldLog (node p) severity).
    + destruct Hev3 as (req & ->). rewrite outcome_message_begin_try in H.
      destruct logMsg; cbn in H;
        repeat (destruct H as [H|H]; [try discriminate|]); try contradiction;
        injection H as _ <- <- <- _; auto.
    + destruct Hev3 as [-> _]. cbn in H. destruct H as [H|[]]. discriminate.
  - rewrite Hcases. cbn [outcome_world trace]. eexists. split; [reflexivity|].
    intros level n td od rest. rewrite !in_app_iff.
    intros [H|H]; [exfalso; exact (Hno1 _ _ _ _ _ H)|destruct H as [H|[]]; discriminate].
Qed.

Lemma first_try_durations_witness :
  exists events,
    trace_of (Do (New (NewRequestLogPolicyFactory (mkRequestLogOptions 0%Z)) accepting_node)
                 0 (world1 "comp=list" (fun n => Z.of_nat n)))
    = [] ++ events /\
    forall level n tryDuration opDuration rest,
      In (EvLog level (RequestResponseLine n tryDuration opDuration :: rest)) events ->
      n = 1%Z /\ (0 <= tryDuration <= opDuration)%Z.
Proof.
  apply (first_try_durations
           (New (NewRequestLogPolicyFactory (mkRequestLogOptions 0%Z)) accepting_node)
           0 (world1 "comp=list" (fun n => Z.of_nat n))).
  - reflexivity.
  - cbn. lia.
  - cbn. lia.
Defined.

End DoProperties.

(** ** More on the query redactor *)
Module RedactorProperties.
Import UrlDefs UrlFacts Redactor.

Lemma ToLower_app a b : ToLower (a ++ b) = ToLower a ++ ToLower b.
Proof.
  induction a as [|c a IH]; [reflexivity|].
  change (ToLower (String c a ++ b)) with (String (lower_byte c) (ToLower (a ++ b))).
  rewrite IH. reflexivity.
Qed.

Lemma Contains_app_r a b substr :
  Contains b substr = true -> Contains (a ++ b) substr = true.
Proof.
  intros H. induction a as [|c a IH]; [exact H|].
  change (String c a ++ b) with (String c (a ++ b)).
  cbn [Contains]. rewrite IH. apply orb_true_r.
Qed.

(** X13: A [sig] parameter that is written, in any letter case, after the
    [&] that ends another parameter is always found. *)
Theorem later_sig_is_found (before name rest : string) :
  is_ascii (before ++ "&" ++ name ++ "=" ++ rest) = true ->
  ToLower name = "sig" ->
  fst (redactSigQueryParam (before ++ "&" ++ name ++ "=" ++ rest)) = true.
Proof.
  intros _ Hname. rewrite redactSigQueryParam_flag.
  assert (H : Contains (ToLower (before ++ "&" ++ name ++ "=" ++ rest)) "&sig=" = true).
  { rewrite !ToLower_app, Hname. apply Contains_app_r.
    change (Contains (String "&" (String "s" (String "i" (String "g"
              (String "=" (ToLower rest)))))) "&sig=" = true).
    cbn [Contains HasPrefix]. rewrite HasPrefix_empty. reflexivity. }
  rewrite H. apply orb_true_r.
Qed.

Lemma later_sig_is_found_witness :
  fst (redactSigQueryParam ("comp=list" ++ "&" ++ "SiG" ++ "=" ++ "AbCd&restype=container")) = true.
Proof.
  apply (later_sig_is_found "comp=list" "SiG" "AbCd&restype=container"); reflexivity.
Defined.

(** X14: whenever the signature is found in an ASCII query, the output is a
    query that parses without error, also when the input did not; in it
    no name that is [sig] in any case holds anything but the single
    value REDACTED, and exactly the names that parsed from the
    lower-cased input are present. *)
Theorem no_sig_value_survives (rawQuery : string) :
  is_ascii rawQuery = true ->
  fst (redactSigQueryParam rawQuery) = true ->
  exists out : Values,
    snd (redactSigQueryParam rawQuery) = Encode out /\
    ParseQuery (snd (redactSigQueryParam rawQuery)) = (out, None) /\
    (forall name vs, EqualFold_sig name = true -> out !! name = Some vs -> vs = [REDACTED]) /\
    (forall name, is_Some (out !! name)
                  <-> is_Some (fst (ParseQuery (ToLower rawQuery)) !! name)).
Proof.
  intros _ Hfound.
  exists (redact_values (fst (ParseQuery (ToLower rawQuery)))).
  rewrite (redactSigQueryParam_found _ Hfound). cbn [snd].
  split; [reflexivity|]. split; [|split].
  - apply ParseQuery_Encode, redact_values_nonempty, ParseQuery_nonempty.
  - intros name vs Hname. rewrite redact_values_lookup, Hname.
    destruct (_ !! name); cbn; [intros [= <-]; reflexivity|discriminate].
  - intros name. rewrite redact_values_lookup.
    destruct (EqualFold_sig name); [|reflexivity].
    destruct (_ !! name); cbn; split; intros [x Hx]; try discriminate; eauto.
Qed.

Lemma no_sig_value_survives_witness :
  exists out : Values,
    snd (redactSigQueryParam "Comp=List&a=%zz&SIG=AbCd") = Encode out /\
    ParseQuery (snd (redactSigQueryParam "Comp=List&a=%zz&SIG=AbCd")) = (out, None) /\
    (forall name vs, EqualFold_sig name = true -> out !! name = Some vs -> vs = [REDACTED]) /\
    (forall name, is_Some (out !! name)
                  <-> is_Some (fst (ParseQuery (ToLower "Comp=List&a=%zz&SIG=AbCd")) !! name)).
Proof.
  apply (no_sig_value_survives "Comp=List&a=%zz&SIG=AbCd"); vm_compute; reflexivity.
Defined.

End RedactorProperties.
